(** * pipe: the server side of the reverse-tunnel relay

    A shallow embedding of [server/handle.go] (the tunnel engine: the
    forward registry, the correlation store, the three frame handlers and
    the start-up path) and of the admin routine, with the properties the
    specification states about them.

    Go's effects are made explicit.  Every method of [*Server] becomes a
    computation over a [World]: the server's fields, the trace of the
    calls that leave the process (log lines, listeners opened and closed,
    frames sent, connections closed), the goroutines spawned so far and
    the number of UUIDs drawn.  What the outside answers (the frame read
    from a connection, the result of a bind, the connections a listener
    accepts, the UUIDs, the file system) is collected in an [Env]. *)

From Stdlib Require Import Strings.Byte Strings.Ascii Strings.String.
From stdpp Require Import gmap strings list pretty.

Open Scope Z_scope.

(** ** Handles and external data *)

(** [net.Conn] and [net.Listener] are handles; only their identity
    matters here. *)
Abbreviation Conn := nat (only parsing).
Abbreviation Listener := nat (only parsing).

(** A Go [error] value, by its message. *)
Abbreviation Err := string (only parsing).

(** A frame payload, [[]byte]. *)
Abbreviation bytes := (list Byte.byte) (only parsing).

(** Modelled from the spec: the type [layer.PacketType] and its constants
    [RegisterForward], [ExchangeMsg] and [CancelForward] belong to the
    package [layer], which is not part of the sources; the spec gives
    three message kinds, and a frame may carry any other tag. *)
Inductive PacketType :=
  | RegisterForward
  | ExchangeMsg
  | CancelForward
  | OtherPacket (tag : N).

Global Instance PacketType_eq_dec : EqDecision PacketType.
Proof. solve_decision. Defined.

(** Modelled from the spec: [proxy.Traffic], the byte counts of one
    splice, [{ bytesAtoB: int64, bytesBtoA: int64 }]. *)
Record Traffic := { bytesAtoB : Z; bytesBtoA : Z }.

(** ** The server's data (handle.go, lines 16-35) *)

Record Config := { Port : Z; AdminPort : Z (* zero means disable admin server *) }.

Record Forward := { From : string; To : string; uListener : Listener }.

(** Modelled from the spec: the type [ConnMap] and its methods [Add],
    [Del] and [Get] are not part of the sources; [newServer] shows its
    field [conns], a [map[string]net.Conn], and the spec describes a
    mapping from correlation identifier to pending inbound connection
    with add, remove and lookup. *)
Record ConnMap := { conns : gmap string Conn }.

Module ConnMap.
Definition Add (m : ConnMap) (cid : string) (conn : Conn) : ConnMap :=
  {| conns := <[cid := conn]> (conns m) |}.
Definition Del (m : ConnMap) (cid : string) : ConnMap :=
  {| conns := delete cid (conns m) |}.
Definition Get (m : ConnMap) (cid : string) : option Conn :=
  conns m !! cid.
End ConnMap.

Record Server := {
  cfg : Config;
  connMap : ConnMap;
  forwards : list Forward;
  traffics : list Traffic
}.

Definition newServer (c : Config) : Server :=
  {| cfg := c; connMap := {| conns := ∅ |}; forwards := []; traffics := [] |}.

(** ** What the process does to the outside *)

Inductive Level := Debug | Info | Warn | Error | Fatal.

Inductive Event :=
  | EvLog (lvl : Level) (format : string)
  | EvListen (addr : string)
  | EvCloseListener (l : Listener)
  | EvCloseConn (c : Conn)
  | EvSend (c : Conn) (t : PacketType) (payload : string)
  | EvHttpHandle (pattern : string)
  | EvHttpListenAndServe (addr : string).

Global Instance Level_eq_dec : EqDecision Level.
Proof. solve_decision. Defined.

Global Instance Event_eq_dec : EqDecision Event.
Proof. solve_decision. Defined.

(** A goroutine started with [go]: the call it runs. *)
Inductive Task :=
  | TStartAdmin
  | THandle (conn : Conn)
  | TMint (userConn commuConn : Conn).

Record World := {
  srv : Server;
  trace : list Event;
  spawned : list Task;
  uuids_drawn : nat
}.

Definition set_srv (f : Server → Server) (w : World) : World :=
  {| srv := f (srv w); trace := trace w; spawned := spawned w;
     uuids_drawn := uuids_drawn w |}.

Definition emit (evs : list Event) (w : World) : World :=
  {| srv := srv w; trace := trace w ++ evs; spawned := spawned w;
     uuids_drawn := uuids_drawn w |}.

Definition spawn (t : Task) (w : World) : World :=
  {| srv := srv w; trace := trace w; spawned := spawned w ++ [t];
     uuids_drawn := uuids_drawn w |}.

Definition draw (w : World) : World :=
  {| srv := srv w; trace := trace w; spawned := spawned w;
     uuids_drawn := S (uuids_drawn w) |}.

(** ** Outcomes of a call

    A call returns ([Ok]), ends the process ([Exit], what [logger.FatalF]
    does), panics ([Panic]), never returns ([Forever], a serving loop), or
    is blocked in [proxy.P] on two connections ([Splicing]): the world at
    that moment is visible, other goroutines may run on it, and the call
    goes on with the traffic record once the splice is over. *)
Inductive Outcome (A : Type) :=
  | Ok (a : A) (w : World)
  | Exit (w : World)
  | Panic (w : World)
  | Forever (w : World)
  | Splicing (c1 c2 : Conn) (w : World) (k : Traffic → World → Outcome A).

Arguments Ok {A} a w.
Arguments Exit {A} w.
Arguments Panic {A} w.
Arguments Forever {A} w.
Arguments Splicing {A} c1 c2 w k.

Definition M (A : Type) : Type := World → Outcome A.

Definition ret {A} (a : A) : M A := λ w, Ok a w.

Fixpoint obind {A B} (o : Outcome A) (f : A → M B) : Outcome B :=
  match o with
  | Ok a w => f a w
  | Exit w => Exit w
  | Panic w => Panic w
  | Forever w => Forever w
  | Splicing c1 c2 w k => Splicing c1 c2 w (λ t w', obind (k t w') f)
  end.

Definition bind {A B} (m : M A) (f : A → M B) : M B := λ w, obind (m w) f.

Notation "'do' x <- c ; k" := (bind c (λ x, k))
  (at level 10, x name, c at level 100, k at level 200).
Notation "c ;; k" := (bind c (λ _, k))
  (at level 100, k at level 200, right associativity).

Definition get_srv : M Server := λ w, Ok (srv w) w.
Definition modify_srv (f : Server → Server) : M unit := λ w, Ok tt (set_srv f w).
Definition tell (evs : list Event) : M unit := λ w, Ok tt (emit evs w).
Definition go (t : Task) : M unit := λ w, Ok tt (spawn t w).

(** The world an outcome stands in, and how a blocked call goes on. *)
Definition world_of {A} (o : Outcome A) : World :=
  match o with
  | Ok _ w | Exit w | Panic w | Forever w | Splicing _ _ w _ => w
  end.

Definition splicing {A} (o : Outcome A) : option (Conn * Conn) :=
  match o with Splicing c1 c2 _ _ => Some (c1, c2) | _ => None end.

Definition resume {A} (o : Outcome A) (t : Traffic) (w : World) : Outcome A :=
  match o with Splicing _ _ _ k => k t w | _ => o end.

Definition returned {A} (o : Outcome A) : bool :=
  match o with Ok _ _ => true | _ => false end.

(** ** The environment

    The answers of everything the server calls outside [handle.go]: the
    framing layer, the network, the UUID generator, the file system and
    the TOML and HTTP libraries. *)
Record Env := {
  (** [layer.Len], the length of an id field on the wire *)
  Len : Z;
  ParseRegisterPacket : bytes → Z;
  ParseCancelPacket : bytes → Z;
  ParseExchangePacket : bytes → string;
  (** [layer.Read(conn)]: the type, the payload ([None] is a nil slice)
      and the error of the first frame of a connection *)
  layer_Read : Conn → PacketType * option bytes * option Err;
  RemoteAddr : Conn → string;
  (** [net.Listen("tcp", addr)] *)
  net_Listen : string → Listener + Err;
  (** the connections [Accept] returns on a listener before it fails *)
  accepted : Listener → list Conn;
  (** the n-th string [uuid.NewString()] returns *)
  uuid_NewString : nat → string;
  os_ReadFile : string → bytes + Err;
  (** [toml.Unmarshal(data, &cfg)]: the record as it is left, and the error *)
  toml_Unmarshal : bytes → Config → Config * option Err;
  (** [http.ListenAndServe(addr, nil)]: [None] when it serves and so never
      returns, the error otherwise *)
  http_ListenAndServe : string → option Err;
  (** [template.New("").ParseFS(assetsFs, "assets/*.html")]: its error,
      if the embedded templates do not parse *)
  template_ParseFS : option Err
}.

(** [fmt.Sprintf(":%d", port)] *)
Definition Sprintf_port (port : Z) : string := ":" +:+ pretty port.

(** [strconv.Itoa] *)
Definition Itoa (n : Z) : string := pretty n.

(** The slice expression [s[:n]] on a string; out of range it panics. *)
Definition slice_to (n : Z) (s : string) : option string :=
  if bool_decide (0 ≤ n ≤ Z.of_nat (String.length s))
  then Some (String.substring 0 (Z.to_nat n) s)
  else None.

(** handle.go, lines 179-181 *)
Definition isInvaliedPort (port : Z) : bool := (port <? 0) || (port >? 65535).

(** The scan of [delForward] (handle.go, lines 58-64): [i] is the index of
    the head of [rest] in [all]; at the first forward whose [To] is [to] it
    gives the listener to close and [append(all[:i], all[i+1:]...)]. *)
Fixpoint delForward_scan (to : string) (all : list Forward) (i : nat)
    (rest : list Forward) : option (Listener * list Forward) :=
  match rest with
  | [] => None
  | ff :: rest' =>
      if decide (To ff = to)
      then Some (uListener ff, take i all ++ drop (S i) all)
      else delForward_scan to all (S i) rest'
  end.

Definition with_connMap (f : ConnMap → ConnMap) (s : Server) : Server :=
  {| cfg := cfg s; connMap := f (connMap s); forwards := forwards s;
     traffics := traffics s |}.

Definition with_forwards (f : list Forward → list Forward) (s : Server) : Server :=
  {| cfg := cfg s; connMap := connMap s; forwards := f (forwards s);
     traffics := traffics s |}.

Definition with_traffics (f : list Traffic → list Traffic) (s : Server) : Server :=
  {| cfg := cfg s; connMap := connMap s; forwards := forwards s;
     traffics := f (traffics s) |}.

(** Modelled from the spec: the package [logger] is not part of the
    sources; its calls write a line, and [FatalF] then ends the process
    (the spec: process-fatal conditions abort the process immediately). *)
Definition logger_DebugF (format : string) : M unit := tell [EvLog Debug format].
Definition logger_InfoF (format : string) : M unit := tell [EvLog Info format].
Definition logger_WarnF (format : string) : M unit := tell [EvLog Warn format].
Definition logger_ErrorF (format : string) : M unit := tell [EvLog Error format].
Definition logger_FatalF {A} (format : string) : M A :=
  λ w, Exit (emit [EvLog Fatal format] w).

(** Modelled from the spec: the package [proxy] is not part of the
    sources; [proxy.P] copies bytes both ways until one side ends, closes
    both ends on completion and returns the byte counts. *)
Definition proxy_P (c1 c2 : Conn) : M Traffic :=
  λ w, Splicing c1 c2 w (λ t w', Ok t (emit [EvCloseConn c1; EvCloseConn c2] w')).

Definition Listener_Close (l : Listener) : M unit := tell [EvCloseListener l].

(** handle.go, lines 37-71 *)
Definition addUserConn (cid : string) (conn : Conn) : M unit :=
  modify_srv (with_connMap (λ m, ConnMap.Add m cid conn)).

Definition delUserConn (cid : string) : M unit :=
  modify_srv (with_connMap (λ m, ConnMap.Del m cid)).

Definition getUserConn (cid : string) : M (option Conn) :=
  do s <- get_srv; ret (ConnMap.Get (connMap s) cid).

Definition addForward (f : Forward) : M unit :=
  modify_srv (with_forwards (λ fs, fs ++ [f])).

Definition delForward (to : string) : M unit :=
  do s <- get_srv;
  match delForward_scan to (forwards s) 0 (forwards s) with
  | Some (l, fs) => Listener_Close l;; modify_srv (with_forwards (λ _, fs))
  | None => ret tt
  end.

Definition metric (t : Traffic) : M unit :=
  modify_srv (with_traffics (λ ts, ts ++ [t])).

(** ** The handlers (handle.go, lines 82-177, and the admin routine) *)

Section Engine.
Context (E : Env).

(** The goroutine started for every inbound connection
    (handle.go, lines 160-164). *)
Definition mint (userConn commuConn : Conn) : M unit :=
  λ w,
    match slice_to (Len E - 1) (uuid_NewString E (uuids_drawn w)) with
    | None => Panic (draw w)
    | Some cid =>
        (addUserConn cid userConn;;
         tell [EvSend commuConn ExchangeMsg cid]) (draw w)
    end.

(** The accept loop of a forward (handle.go, lines 154-165), over the
    connections the listener accepts before [Accept] fails; when it fails
    the handler returns.  The loop of the code waits in [Accept] and has
    no other exit: a run in which [Accept] never fails does not end, and
    is not one of the runs described here. *)
Fixpoint accept_loop (commuConn : Conn) (incoming : list Conn) : M unit :=
  match incoming with
  | [] => ret tt
  | userConn :: rest =>
      logger_DebugF "Accept new user connection: %s";;
      go (TMint userConn commuConn);;
      accept_loop commuConn rest
  end.

(** handle.go, lines 138-166; the deferred [uListener.Close()] runs when
    the function returns.  This is the handler taken alone, from its bind
    to the failure of [Accept]; [handleForward_among] below lets other
    goroutines run while it waits. *)
Definition handleForward (commuConn : Conn) (buf : bytes) : M unit :=
  let uPort := ParseRegisterPacket E buf in
  if isInvaliedPort uPort then
    logger_ErrorF "Invalid forward to port: %d"
  else
    tell [EvListen (Sprintf_port uPort)];;
    match net_Listen E (Sprintf_port uPort) with
    | inr err => logger_ErrorF "Error listening: %v, port: %d"
    | inl uListener =>
        logger_InfoF "Listening on forwarding port %d";;
        addForward {| From := RemoteAddr E commuConn;
                      To := Sprintf_port uPort;
                      uListener := uListener |};;
        accept_loop commuConn (accepted E uListener);;
        Listener_Close uListener
    end.

(** handle.go, lines 168-177; the deferred [s.delUserConn(rid)] runs
    after [s.metric(proxy.P(conn, uConn))]. *)
Definition handleMessage (conn : Conn) (buf : bytes) : M unit :=
  let rid := ParseExchangePacket E buf in
  do found <- getUserConn rid;
  match found with
  | None => ret tt
  | Some uConn =>
      do t <- proxy_P conn uConn;
      metric t;;
      delUserConn rid
  end.

(** handle.go, lines 133-136 *)
Definition handleCancel (rPort : Z) : M unit :=
  delForward (Sprintf_port rPort);;
  logger_InfoF "Cancel forward to port %d".

(** handle.go, lines 116-131 *)
Definition handle (conn : Conn) : M unit :=
  match layer_Read E conn with
  | (_, _, Some _) | (_, None, _) =>
      logger_WarnF "Error reading from connection: %v"
  | (packetType, Some buf, None) =>
      match packetType with
      | RegisterForward => handleForward conn buf
      | ExchangeMsg => handleMessage conn buf
      | CancelForward => handleCancel (ParseCancelPacket E buf)
      | OtherPacket _ => ret tt
      end
  end.

(** The admin routine of the second file (lines 18-35): [template.Must]
    panics when the embedded templates do not parse; the two handlers are
    registered, then [http.ListenAndServe] is called on
    [":" + strconv.Itoa(s.cfg.AdminPort)], and its error, when it returns
    one, is fatal. *)
Definition startAdmin : M unit :=
  match template_ParseFS E with
  | Some err => λ w, Panic w
  | None =>
      tell [EvHttpHandle "/static/"];;
      tell [EvHttpHandle "/"];;
      do s <- get_srv;
      let addr := ":" +:+ Itoa (AdminPort (cfg s)) in
      tell [EvHttpListenAndServe addr];;
      match http_ListenAndServe E addr with
      | Some err => logger_FatalF "admin server error: %v"
      | None => λ w, Forever w
      end
  end.

(** Modelled from the spec: the method [StartAdmin], which [Run] starts
    with [go s.StartAdmin()], is not part of the sources ([startAdmin]
    above belongs to a revision with another [Server]).  The spec:
    [adminPort = 0] disables the administrative surface; the comment on
    [Config.AdminPort] says the same.  With any other port the surface is
    served, as [startAdmin] does. *)
Definition StartAdmin : M unit :=
  do s <- get_srv;
  if decide (AdminPort (cfg s) = 0) then ret tt else startAdmin.

(** handle.go, lines 82-92: the result of [toml.Unmarshal] is dropped. *)
Definition parseConfig (cfgFile : string) : M Config :=
  do data <-
    match os_ReadFile E cfgFile with
    | inr err => logger_FatalF "Error reading config file: %v"
    | inl data => ret data
    end;
  ret (toml_Unmarshal E data {| Port := 0; AdminPort := 0 |}).1.

(** The loop of [Run] (handle.go, lines 105-113), over the connections
    accepted before [Accept] fails. *)
Fixpoint serve_loop (incoming : list Conn) : M unit :=
  match incoming with
  | [] => logger_InfoF "Error accepting: %v"
  | conn :: rest => go (THandle conn);; serve_loop rest
  end.

(** handle.go, lines 94-114 *)
Definition Run : M unit :=
  go TStartAdmin;;
  do s <- get_srv;
  let addr := Sprintf_port (Port (cfg s)) in
  tell [EvListen addr];;
  match net_Listen E addr with
  | inr err => logger_FatalF "Error listening: %v"
  | inl listener =>
      logger_InfoF "Server listen on port %d";;
      serve_loop (accepted E listener);;
      Listener_Close listener
  end.

(** The [Run] function of the command (second file, lines 50-56). *)
Definition Command_Run (cfgFile : string) (flagCfg : Config) : M unit :=
  if decide (cfgFile ≠ "") then
    do c <- parseConfig cfgFile;
    modify_srv (λ _, newServer c);;
    Run
  else
    modify_srv (λ _, newServer flagCfg);;
    Run.

(** What a goroutine runs. *)
Definition run_task (t : Task) : M unit :=
  match t with
  | TStartAdmin => StartAdmin
  | THandle conn => handle conn
  | TMint userConn commuConn => mint userConn commuConn
  end.

(** Goroutines run one after the other, in the given order. *)
Fixpoint run_tasks (ts : list Task) : M unit :=
  match ts with
  | [] => ret tt
  | t :: ts' => run_task t;; run_tasks ts'
  end.

(** *** The Register handler among other goroutines

    [handleForward] above describes a handler that is alone from its bind
    to the failure of [Accept].  The same lines, cut where the handler
    waits in [Accept], let other goroutines run in between. *)

(** handle.go, lines 139-153: the handler up to its accept loop; [Some l]
    when the forward is registered on the listener [l]. *)
Definition handleForward_open (commuConn : Conn) (buf : bytes) : M (option Listener) :=
  let uPort := ParseRegisterPacket E buf in
  if isInvaliedPort uPort then
    logger_ErrorF "Invalid forward to port: %d";; ret None
  else
    tell [EvListen (Sprintf_port uPort)];;
    match net_Listen E (Sprintf_port uPort) with
    | inr err => logger_ErrorF "Error listening: %v, port: %d";; ret None
    | inl uListener =>
        logger_InfoF "Listening on forwarding port %d";;
        addForward {| From := RemoteAddr E commuConn;
                      To := Sprintf_port uPort;
                      uListener := uListener |};;
        ret (Some uListener)
    end.

(** handle.go, lines 155-164: one turn of the loop, on a connection that
    [Accept] returned. *)
Definition accept_turn (commuConn userConn : Conn) : M unit :=
  logger_DebugF "Accept new user connection: %s";;
  go (TMint userConn commuConn).

(** The loop on the connections of [arrivals]; after each turn, while the
    handler waits in [Accept] again, the goroutines listed with the
    connection run. *)
Fixpoint accept_loop_among (commuConn : Conn) (arrivals : list (Conn * list Task))
    : M unit :=
  match arrivals with
  | [] => ret tt
  | (userConn, others) :: rest =>
      accept_turn commuConn userConn;;
      run_tasks others;;
      accept_loop_among commuConn rest
  end.

(** The whole handler: after the last connection the goroutines [final]
    run, then [Accept] fails and the deferred [uListener.Close()] runs. *)
Definition handleForward_among (commuConn : Conn) (buf : bytes)
    (arrivals : list (Conn * list Task)) (final : list Task) : M unit :=
  do r <- handleForward_open commuConn buf;
  match r with
  | None => ret tt
  | Some uListener =>
      accept_loop_among commuConn arrivals;;
      run_tasks final;;
      Listener_Close uListener
  end.

End Engine.

(** ** Observations on a trace *)

Definition conn_closed (c : Conn) (tr : list Event) : Prop := EvCloseConn c ∈ tr.


(** The payloads of the frames of type [t] sent on [c], in order. *)
Fixpoint frames_sent (c : Conn) (t : PacketType) (tr : list Event) : list string :=
  match tr with
  | [] => []
  | EvSend c' t' payload :: tr' =>
      if decide (c' = c ∧ t' = t)
      then payload :: frames_sent c t tr'
      else frames_sent c t tr'
  | _ :: tr' => frames_sent c t tr'
  end.

Definition is_send (e : Event) : bool :=
  match e with EvSend _ _ _ => true | _ => false end.

Definition is_close (e : Event) : bool :=
  match e with EvCloseConn _ | EvCloseListener _ => true | _ => false end.

Definition is_listen (e : Event) : bool :=
  match e with EvListen _ | EvHttpListenAndServe _ => true | _ => false end.


Definition is_fatal (e : Event) : bool :=
  match e with EvLog Fatal _ => true | _ => false end.

(** ** The worlds the handlers reach *)

Section Worlds.
Context (E : Env).
Implicit Types (w : World) (conn uConn commuConn userConn : Conn)
  (incoming : list Conn).

(** The world a claim of [rid] leaves once the splice of [conn] and
    [uConn] has ended in the world [w] with the record [t]. *)
Definition claimed (rid : string) conn uConn (t : Traffic) w : World :=
  set_srv (with_connMap (λ m, ConnMap.Del m rid))
    (set_srv (with_traffics (λ ts, ts ++ [t]))
       (emit [EvCloseConn conn; EvCloseConn uConn] w)).

(** The id made of the n-th UUID: its first [Len - 1] characters. *)
Definition cid_at (n : nat) : string :=
  String.substring 0 (Z.to_nat (Len E - 1)) (uuid_NewString E n).

(** The ids made of [k] UUIDs, from the n-th on. *)
Definition cids (n k : nat) : list string := map cid_at (seq n k).

(** The UUIDs are long enough for the slice [[:layer.Len-1]]. *)
Definition uuids_fit : Prop :=
  ∀ n, 0 ≤ Len E - 1 ≤ Z.of_nat (String.length (uuid_NewString E n)).

(** The world after one run of the minting goroutine. *)
Definition minted userConn commuConn w : World :=
  emit [EvSend commuConn ExchangeMsg (cid_at (uuids_drawn w))]
    (set_srv (with_connMap (λ m, ConnMap.Add m (cid_at (uuids_drawn w)) userConn))
       (draw w)).

Fixpoint after_mints commuConn incoming w : World :=
  match incoming with
  | [] => w
  | userConn :: rest => after_mints commuConn rest (minted userConn commuConn w)
  end.

(** The world after the accept loop has taken [incoming]. *)
Definition after_accepts commuConn incoming w : World :=
  {| srv := srv w;
     trace := trace w ++ replicate (length incoming)
                           (EvLog Debug "Accept new user connection: %s");
     spawned := spawned w ++ map (λ u, TMint u commuConn) incoming;
     uuids_drawn := uuids_drawn w |}.

(** The world after the loop has taken [incoming] with the minting
    goroutine of every connection run right after its turn. *)
Fixpoint after_arrivals commuConn incoming w : World :=
  match incoming with
  | [] => w
  | userConn :: rest =>
      after_arrivals commuConn rest
        (minted userConn commuConn
           (spawn (TMint userConn commuConn)
              (emit [EvLog Debug "Accept new user connection: %s"] w)))
  end.

(** The world a forward leaves when its accept loop has ended. *)
Definition forwarded commuConn (port : Z) (l : Listener) w : World :=
  emit [EvCloseListener l]
    (after_accepts commuConn (accepted E l)
       (set_srv (with_forwards (λ fs, fs ++ [ {| From := RemoteAddr E commuConn;
                                                 To := Sprintf_port port;
                                                 uListener := l |} ]))
          (emit [EvListen (Sprintf_port port);
                 EvLog Info "Listening on forwarding port %d"] w))).

End Worlds.

(** ** A concrete environment

    Ports travel as big-endian integers and ids as their ASCII bytes;
    [":9000"], the main port [":8910"] and [":0"] (any free port) can be
    bound, every other address is taken. *)
Module Demo.

Definition be_int (buf : bytes) : Z :=
  fold_left (λ acc b, acc * 256 + Z.of_N (Byte.to_N b)) buf 0.

Definition ascii_string (buf : bytes) : string :=
  String.string_of_list_ascii (map Ascii.ascii_of_byte buf).

Definition port_9000 : bytes := [x23; x28].
Definition port_70000 : bytes := [x01; x11; x70].
Definition id_aaaaaaaa : bytes := [x61; x61; x61; x61; x61; x61; x61; x61].

Definition env : Env := {|
  Len := 9;
  ParseRegisterPacket := be_int;
  ParseCancelPacket := be_int;
  ParseExchangePacket := ascii_string;
  layer_Read := λ conn,
    match conn with
    | 1%nat => (RegisterForward, Some port_9000, None)
    | 2%nat | 3%nat => (ExchangeMsg, Some id_aaaaaaaa, None)
    | 4%nat => (CancelForward, Some port_9000, None)
    | 5%nat => (OtherPacket 7, Some [], None)
    | 6%nat => (RegisterForward, Some port_70000, None)
    | 7%nat => (RegisterForward, Some [x23; x29], None)
    | _ => (OtherPacket 0, None, Some "EOF")
    end;
  RemoteAddr := λ conn, "10.0.0.1:" +:+ pretty conn;
  net_Listen := λ addr,
    if decide (addr = ":9000") then inl 100%nat
    else if decide (addr = ":8910") then inl 1%nat
    else if decide (addr = ":0") then inl 2%nat
    else inr "bind: address already in use";
  accepted := λ l, match l with 100%nat => [10%nat; 11%nat] | _ => [] end;
  uuid_NewString := λ n,
    match n with
    | 0%nat => "aaaaaaaa-0000-4000-8000-000000000000"
    | 1%nat => "aaaaaaaa-1111-4111-8111-111111111111"
    | 2%nat => "bbbbbbbb-2222-4222-8222-222222222222"
    | 3%nat => "cccccccc-3333-4333-8333-333333333333"
    | _ => "dddddddd-4444-4444-8444-444444444444"
    end;
  os_ReadFile := λ path,
    if decide (path = "pipe.toml") then inl [x70; x6f; x72; x74; x20; x3d]
    else inr "open: no such file or directory";
  toml_Unmarshal := λ data c, (c, Some "toml: expected value");
  http_ListenAndServe := λ addr, None;
  template_ParseFS := None
|}.

Definition server0 : Server := newServer {| Port := 8910; AdminPort := 0 |}.

Definition world0 : World :=
  {| srv := server0; trace := []; spawned := []; uuids_drawn := 0 |}.

(** One inbound connection, [10], waits under the id ["aaaaaaaa"]. *)
Definition world_pending : World :=
  set_srv (with_connMap (λ m, ConnMap.Add m "aaaaaaaa" 10%nat)) world0.

(** Two forwards, to [":9000"] and to [":9001"]. *)
Definition world_forwards : World :=
  set_srv (with_forwards (λ _,
    [ {| From := "10.0.0.1:1"; To := ":9001"; uListener := 101%nat |};
      {| From := "10.0.0.1:2"; To := ":9000"; uListener := 100%nat |};
      {| From := "10.0.0.1:3"; To := ":9002"; uListener := 102%nat |} ])) world0.

End Demo.

(** ** Basic facts *)

Lemma isInvaliedPort_spec (port : Z) :
  isInvaliedPort port = true ↔ ¬ (0 ≤ port ≤ 65535).
Proof. unfold isInvaliedPort. rewrite orb_true_iff, Z.ltb_lt, Z.gtb_lt. lia. Qed.

Lemma isInvaliedPort_valid (port : Z) :
  0 ≤ port ≤ 65535 → isInvaliedPort port = false.
Proof.
  intros Hp. destruct (isInvaliedPort port) eqn:Hi; [|done].
  apply isInvaliedPort_spec in Hi. lia.
Qed.

Lemma trace_emit evs w : trace (emit evs w) = trace w ++ evs.
Proof. done. Qed.

Lemma srv_emit evs w : srv (emit evs w) = srv w.
Proof. done. Qed.

(** The handler of a frame is chosen by its type alone. *)
Lemma handle_dispatch E conn packetType buf w :
  layer_Read E conn = (packetType, Some buf, None) →
  handle E conn w =
    match packetType with
    | RegisterForward => handleForward E conn buf w
    | ExchangeMsg => handleMessage E conn buf w
    | CancelForward => handleCancel (ParseCancelPacket E buf) w
    | OtherPacket _ => Ok tt w
    end.
Proof. intros Hr. unfold handle. rewrite Hr. by destruct packetType. Qed.

(** ** The correlation store on an Exchange claim *)

Section Exchange.
Context (E : Env).
Implicit Types (w : World) (conn uConn : Conn) (buf : bytes).

Lemma handleMessage_found conn buf uConn w :
  ConnMap.Get (connMap (srv w)) (ParseExchangePacket E buf) = Some uConn →
  ∃ k, handleMessage E conn buf w = Splicing conn uConn w k ∧
       ∀ t w', k t w' = Ok tt (claimed (ParseExchangePacket E buf) conn uConn t w').
Proof.
  intros Hget. unfold handleMessage, bind, getUserConn, bind, get_srv, ret.
  simpl. rewrite Hget. simpl. eexists. split; [reflexivity|]. done.
Qed.

Lemma handleMessage_not_found conn buf w :
  ConnMap.Get (connMap (srv w)) (ParseExchangePacket E buf) = None →
  handleMessage E conn buf w = Ok tt w.
Proof.
  intros Hget. unfold handleMessage, bind, getUserConn, bind, get_srv, ret.
  simpl. by rewrite Hget.
Qed.

Lemma claimed_gone rid conn uConn t w' :
  ConnMap.Get (connMap (srv (claimed rid conn uConn t w'))) rid = None.
Proof. unfold ConnMap.Get. simpl. apply lookup_delete_eq. Qed.

End Exchange.

(** C1, as amended.  A successful Exchange claim looks the entry up and
    leaves it in the store: at the moment the claiming connection and the
    inbound connection are handed to the splice the world is the one the
    handler started in, with the entry still there.  The entry is deleted
    when the handler goes on after the splice, together with the append
    of the traffic record; from then on a lookup of the id finds nothing
    and a further claim of it returns without a splice. *)
Theorem handleMessage_claim_then_delete E (w : World) (conn uConn : Conn) (buf : bytes) :
  let rid := ParseExchangePacket E buf in
  let o := handleMessage E conn buf w in
  ConnMap.Get (connMap (srv w)) rid = Some uConn →
  splicing o = Some (conn, uConn) ∧
  world_of o = w ∧
  ConnMap.Get (connMap (srv (world_of o))) rid = Some uConn ∧
  ∀ (t : Traffic) (w' : World),
    let w'' := claimed rid conn uConn t w' in
    resume o t w' = Ok tt w'' ∧
    traffics (srv w'') = traffics (srv w') ++ [t] ∧
    ConnMap.Get (connMap (srv w'')) rid = None ∧
    ∀ conn', handleMessage E conn' buf w'' = Ok tt w''.
Proof.
  intros rid o Hget.
  destruct (handleMessage_found E conn buf uConn w Hget) as (k & Ho & Hk).
  subst o. rewrite Ho. cbn [splicing world_of resume].
  split; [done|]. split; [done|]. split; [exact Hget|].
  intros t w'. split; [apply Hk|]. split; [done|].
  split; [apply (claimed_gone rid conn uConn t w')|].
  intros conn'. apply handleMessage_not_found, (claimed_gone rid conn uConn t w').
Qed.

Lemma handleMessage_claim_then_delete_witness :
  let o := handleMessage Demo.env 2%nat Demo.id_aaaaaaaa Demo.world_pending in
  splicing o = Some (2%nat, 10%nat) ∧
  ConnMap.Get (connMap (srv (world_of (resume o {| bytesAtoB := 5; bytesBtoA := 0 |}
                                         Demo.world_pending)))) "aaaaaaaa" = None.
Proof.
  pose proof (handleMessage_claim_then_delete Demo.env Demo.world_pending
                2%nat 10%nat Demo.id_aaaaaaaa eq_refl) as (Hs & _ & _ & Hr).
  split; [exact Hs|].
  destruct (Hr {| bytesAtoB := 5; bytesBtoA := 0 |} Demo.world_pending)
    as (Hres & _ & Hgone & _).
  cbv zeta. rewrite Hres. exact Hgone.
Defined.

(** C1, as stated, fails: with the inbound connection [10] pending under
    ["aaaaaaaa"], the claim on connection [2] is handed to the splice
    while the entry is still in the store, and a second claim of the same
    id, on connection [3], made during that splice obtains connection
    [10] as well. *)
Lemma exchange_claim_entry_still_present :
  let o := handle Demo.env 2%nat Demo.world_pending in
  splicing o = Some (2%nat, 10%nat) ∧
  ConnMap.Get (connMap (srv (world_of o))) "aaaaaaaa" = Some 10%nat ∧
  ConnMap.Get (connMap (srv (world_of o))) "aaaaaaaa" ≠ None ∧
  splicing (handle Demo.env 3%nat (world_of o)) = Some (3%nat, 10%nat).
Proof. vm_compute. repeat split; congruence. Qed.

(** C3, as amended.  An Exchange frame whose id has no entry in the
    correlation store makes the handler return at once: the store, the
    registry and the traffic records are as before, nothing is sent, and
    no close is issued on the claiming connection, which the handler
    merely stops using. *)
Theorem handle_exchange_unknown_id E (w : World) (conn : Conn) (buf : bytes) :
  layer_Read E conn = (ExchangeMsg, Some buf, None) →
  ConnMap.Get (connMap (srv w)) (ParseExchangePacket E buf) = None →
  handle E conn w = Ok tt w ∧
  connMap (srv (world_of (handle E conn w))) = connMap (srv w) ∧
  trace (world_of (handle E conn w)) = trace w.
Proof.
  intros Hr Hget. rewrite (handle_dispatch E conn _ buf w Hr).
  by rewrite (handleMessage_not_found E conn buf w Hget).
Qed.

Lemma handle_exchange_unknown_id_witness :
  handle Demo.env 2%nat Demo.world0 = Ok tt Demo.world0 ∧
  trace (world_of (handle Demo.env 2%nat Demo.world0)) = [].
Proof.
  destruct (handle_exchange_unknown_id Demo.env Demo.world0 2%nat
              Demo.id_aaaaaaaa eq_refl eq_refl) as (H1 & _ & H3).
  split; [exact H1 | exact H3].
Defined.

(** C3, as stated, fails: the claim of ["aaaaaaaa"] on connection [2]
    against an empty store returns with the store unchanged, but the
    claiming connection is not closed. *)
Lemma exchange_unknown_id_not_closed :
  let o := handle Demo.env 2%nat Demo.world0 in
  ConnMap.Get (connMap (srv Demo.world0)) "aaaaaaaa" = None ∧
  connMap (srv (world_of o)) = connMap (srv Demo.world0) ∧
  ¬ conn_closed 2%nat (trace (world_of o)).
Proof.
  vm_compute. split; [done|]. split; [done|]. intros H. inversion H.
Qed.

(** C7, as amended.  When the first frame of an accepted connection
    cannot be read (an error, or no payload), the handler writes one
    warning and returns: it does not read again, the forward registry and
    the correlation store are as before, the process goes on, and no
    close is issued on the connection, which the handler merely stops
    using. *)
Theorem handle_read_error E (w : World) (conn : Conn) :
  (layer_Read E conn).2 ≠ None ∨ (layer_Read E conn).1.2 = None →
  handle E conn w = Ok tt (emit [EvLog Warn "Error reading from connection: %v"] w) ∧
  srv (world_of (handle E conn w)) = srv w ∧
  spawned (world_of (handle E conn w)) = spawned w ∧
  returned (handle E conn w) = true.
Proof.
  intros Hr.
  assert (handle E conn w
          = Ok tt (emit [EvLog Warn "Error reading from connection: %v"] w)) as ->.
  { unfold handle. destruct (layer_Read E conn) as [[pt [buf|]] [err|]];
      simpl in Hr; try done. by destruct Hr. }
  done.
Qed.

Lemma handle_read_error_witness :
  handle Demo.env 9%nat Demo.world0
  = Ok tt (emit [EvLog Warn "Error reading from connection: %v"] Demo.world0).
Proof.
  apply (handle_read_error Demo.env Demo.world0 9%nat). left. simpl. congruence.
Defined.

(** C7, as stated, fails: connection [9] yields a read error; the handler
    returns after its warning, with registry and store unchanged, but the
    connection is not closed. *)
Lemma read_error_not_closed :
  let o := handle Demo.env 9%nat Demo.world0 in
  (layer_Read Demo.env 9%nat).2 = Some "EOF" ∧
  srv (world_of o) = srv Demo.world0 ∧
  ¬ conn_closed 9%nat (trace (world_of o)).
Proof.
  vm_compute. split; [done|]. split; [done|].
  intros H. inversion H as [|? ? ? H']. inversion H'.
Qed.

(** C10.  When the first frame of an accepted connection has a type that
    is none of Register, Exchange and Cancel, the handler changes neither
    the forward registry nor the correlation store, starts nothing, sends
    no frame and closes nothing: it returns, having written at most the
    warning of a frame without payload. *)
Theorem handle_unknown_type E (w : World) (conn : Conn) (tag : N) :
  (layer_Read E conn).1.1 = OtherPacket tag →
  ∃ evs, handle E conn w = Ok tt (emit evs w) ∧
    srv (emit evs w) = srv w ∧
    spawned (emit evs w) = spawned w ∧
    filter is_send evs = [] ∧
    filter is_close evs = [] ∧
    ¬ conn_closed conn evs ∧
    ((layer_Read E conn).2 = None → (layer_Read E conn).1.2 ≠ None → evs = []).
Proof.
  intros Hr. unfold handle.
  destruct (layer_Read E conn) as [[pt [buf|]] [err|]]; simpl in Hr; subst pt.
  1,3,4: exists [EvLog Warn "Error reading from connection: %v"];
    do 5 (split; [done|]);
    (split; [|simpl; intros; congruence]); unfold conn_closed; intros H;
    inversion H as [|? ? ? H']; inversion H'.
  exists []. unfold emit. simpl. rewrite app_nil_r. destruct w.
  do 5 (split; [done|]).
  split; [|done]. unfold conn_closed. intros H. inversion H.
Qed.

Lemma handle_unknown_type_witness :
  ∃ evs, handle Demo.env 5%nat Demo.world_pending = Ok tt (emit evs Demo.world_pending)
         ∧ evs = [].
Proof.
  destruct (handle_unknown_type Demo.env Demo.world_pending 5%nat 7 eq_refl)
    as (evs & H1 & _ & _ & _ & _ & _ & H7).
  exists evs. split; [exact H1|]. apply H7; simpl; congruence.
Defined.

(** ** The forward registry on a Cancel *)

Section Registry.
Implicit Types (to : string) (f g ff : Forward) (fs : list Forward).

Lemma delForward_scan_no_match to all i rest :
  (∀ g, g ∈ rest → To g ≠ to) → delForward_scan to all i rest = None.
Proof.
  revert i. induction rest as [|ff rest IH]; intros i Hno; [done|].
  simpl. destruct (decide (To ff = to)) as [Heq|_].
  - exfalso. apply (Hno ff); [left | done].
  - apply IH. intros g Hg. apply Hno. by right.
Qed.

Lemma delForward_scan_first_match to pre l1 f l2 :
  To f = to → (∀ g, g ∈ l1 → To g ≠ to) →
  delForward_scan to (pre ++ l1 ++ f :: l2) (length pre) (l1 ++ f :: l2)
  = Some (uListener f, pre ++ l1 ++ l2).
Proof.
  intros Hf. revert pre. induction l1 as [|g l1 IH]; intros pre Hno.
  - simpl. rewrite decide_True by done. f_equal. f_equal.
    rewrite take_app_length.
    replace (S (length pre)) with (length (pre ++ [f])) by (rewrite length_app; simpl; lia).
    replace (pre ++ f :: l2) with ((pre ++ [f]) ++ l2) by (by rewrite <- app_assoc).
    by rewrite drop_app_length.
  - simpl. rewrite decide_False by (apply Hno; left).
    specialize (IH (pre ++ [g])).
    rewrite length_app in IH. simpl in IH.
    replace (length pre + 1)%nat with (S (length pre)) in IH by lia.
    rewrite <- !app_assoc in IH. simpl in IH. apply IH.
    intros g' Hg'. apply Hno. by right.
Qed.

(** The first forward to a target, when there is one. *)
Lemma first_match_split to fs :
  (∃ f, f ∈ fs ∧ To f = to) →
  ∃ l1 f l2, fs = l1 ++ f :: l2 ∧ To f = to ∧ ∀ g, g ∈ l1 → To g ≠ to.
Proof.
  induction fs as [|ff fs IH]; intros (f & Hin & Hf).
  - inversion Hin.
  - destruct (decide (To ff = to)) as [Heq|Hne].
    + exists [], ff, fs. split; [done|]. split; [done|]. intros g Hg. inversion Hg.
    + destruct IH as (l1 & f' & l2 & -> & Hf' & Hno).
      { exists f. split; [|done]. inversion Hin; by subst. }
      exists (ff :: l1), f', l2. split; [done|]. split; [done|].
      intros g Hg. inversion Hg; subst; [done|]. by apply Hno.
Qed.

Lemma delForward_no_match to (w : World) :
  (∀ g, g ∈ forwards (srv w) → To g ≠ to) → delForward to w = Ok tt w.
Proof.
  intros Hno. unfold delForward, bind, get_srv. simpl.
  by rewrite delForward_scan_no_match.
Qed.

Lemma delForward_first_match to (w : World) l1 f l2 :
  forwards (srv w) = l1 ++ f :: l2 → To f = to → (∀ g, g ∈ l1 → To g ≠ to) →
  delForward to w
  = Ok tt (set_srv (with_forwards (λ _, l1 ++ l2)) (emit [EvCloseListener (uListener f)] w)).
Proof.
  intros Hfs Hf Hno. unfold delForward, bind, get_srv. simpl. rewrite Hfs.
  pose proof (delForward_scan_first_match to [] l1 f l2 Hf Hno) as Hscan.
  simpl in Hscan. rewrite Hscan. done.
Qed.

End Registry.



(** C6.  A Cancel whose target is the [To] of no forward in the registry
    changes nothing: the registry, the correlation store and the rest of
    the server are as before, no listener and no connection is closed, and
    the handler returns after its one informational log line. *)
Theorem handle_cancel_no_match E (w : World) (conn : Conn) (buf : bytes) :
  let target := Sprintf_port (ParseCancelPacket E buf) in
  layer_Read E conn = (CancelForward, Some buf, None) →
  (∀ g, g ∈ forwards (srv w) → To g ≠ target) →
  handle E conn w = Ok tt (emit [EvLog Info "Cancel forward to port %d"] w) ∧
  forwards (srv (world_of (handle E conn w))) = forwards (srv w) ∧
  srv (world_of (handle E conn w)) = srv w ∧
  filter is_close (trace (world_of (handle E conn w))) = filter is_close (trace w) ∧
  returned (handle E conn w) = true.
Proof.
  intros target Hr Hno.
  assert (handle E conn w = Ok tt (emit [EvLog Info "Cancel forward to port %d"] w)) as ->.
  { rewrite (handle_dispatch E conn _ buf w Hr). unfold handleCancel, bind.
    fold target. by rewrite (delForward_no_match target w Hno). }
  simpl. do 3 (split; [done|]). split; [|done].
  by rewrite filter_app, app_nil_r.
Qed.

Lemma handle_cancel_no_match_witness :
  handle Demo.env 4%nat Demo.world0
  = Ok tt (emit [EvLog Info "Cancel forward to port %d"] Demo.world0).
Proof.
  apply (handle_cancel_no_match Demo.env Demo.world0 4%nat Demo.port_9000 eq_refl).
  intros g Hg. inversion Hg.
Defined.

(** ** Register: rejection *)

Lemma handleForward_invalid_port E (w : World) (commuConn : Conn) (buf : bytes) :
  ¬ (0 ≤ ParseRegisterPacket E buf ≤ 65535) →
  handleForward E commuConn buf w
  = Ok tt (emit [EvLog Error "Invalid forward to port: %d"] w).
Proof.
  intros Hp. apply isInvaliedPort_spec in Hp. unfold handleForward. by rewrite Hp.
Qed.

Lemma handleForward_bind_failure E (w : World) (commuConn : Conn) (buf : bytes) err :
  0 ≤ ParseRegisterPacket E buf ≤ 65535 →
  net_Listen E (Sprintf_port (ParseRegisterPacket E buf)) = inr err →
  handleForward E commuConn buf w
  = Ok tt (emit [EvListen (Sprintf_port (ParseRegisterPacket E buf));
                 EvLog Error "Error listening: %v, port: %d"] w).
Proof.
  intros Hp Hl. unfold handleForward. rewrite (isInvaliedPort_valid _ Hp).
  unfold bind, tell. simpl. rewrite Hl. unfold logger_ErrorF, tell.
  unfold emit. simpl. by rewrite <- app_assoc.
Qed.

(** C4, as amended.  A Register frame whose port is outside 0..65535, or
    whose port cannot be bound, is rejected: the handler writes an error
    line and returns with the forward registry and the correlation store
    as they were, no accept loop and no goroutine started, nothing sent,
    and the bind attempted at most once.  No close is issued on the
    requesting connection: the handler merely stops using it. *)
Theorem handle_register_rejected E (w : World) (conn : Conn) (buf : bytes) :
  let port := ParseRegisterPacket E buf in
  layer_Read E conn = (RegisterForward, Some buf, None) →
  ¬ (0 ≤ port ≤ 65535) ∨ (∃ err, net_Listen E (Sprintf_port port) = inr err) →
  ∃ evs, handle E conn w = Ok tt (emit evs w) ∧
    forwards (srv (emit evs w)) = forwards (srv w) ∧
    connMap (srv (emit evs w)) = connMap (srv w) ∧
    spawned (emit evs w) = spawned w ∧
    filter is_send evs = [] ∧
    (length (filter is_listen evs) ≤ 1)%nat ∧
    (¬ (0 ≤ port ≤ 65535) → evs = [EvLog Error "Invalid forward to port: %d"]) ∧
    (0 ≤ port ≤ 65535 →
       evs = [EvListen (Sprintf_port port); EvLog Error "Error listening: %v, port: %d"]) ∧
    filter is_close evs = [] ∧
    ¬ conn_closed conn evs.
Proof.
  intros port Hr Hrej. rewrite (handle_dispatch E conn _ buf w Hr).
  destruct (decide (0 ≤ port ≤ 65535)) as [Hp|Hp].
  - destruct Hrej as [Hnp|(err & Hl)]; [done|].
    eexists. split; [apply (handleForward_bind_failure E w conn buf err Hp Hl)|].
    simpl. do 5 (split; [done || lia|]). split; [done|]. split; [by intros|].
    split; [done|]. unfold conn_closed. intros H.
    inversion H as [|? ? ? H']. inversion H' as [|? ? ? H'']. inversion H''.
  - eexists. split; [apply (handleForward_invalid_port E w conn buf Hp)|].
    simpl. do 5 (split; [done || lia|]). split; [by intros|]. split; [done|].
    split; [done|]. unfold conn_closed. intros H.
    inversion H as [|? ? ? H']. inversion H'.
Qed.

Lemma handle_register_rejected_witness :
  (∃ evs, handle Demo.env 6%nat Demo.world0 = Ok tt (emit evs Demo.world0)
          ∧ evs = [EvLog Error "Invalid forward to port: %d"]) ∧
  (∃ evs, handle Demo.env 7%nat Demo.world0 = Ok tt (emit evs Demo.world0)
          ∧ evs = [EvListen ":9001"; EvLog Error "Error listening: %v, port: %d"]).
Proof.
  split.
  - destruct (handle_register_rejected Demo.env Demo.world0 6%nat Demo.port_70000 eq_refl)
      as (evs & H1 & _ & _ & _ & _ & _ & H7 & _).
    { left. vm_compute. intros [_ H]. by apply H. }
    exists evs. split; [exact H1|]. apply H7. vm_compute. intros [_ H]. by apply H.
  - destruct (handle_register_rejected Demo.env Demo.world0 7%nat [x23; x29] eq_refl)
      as (evs & H1 & _ & _ & _ & _ & _ & _ & H8 & _).
    { right. eexists. reflexivity. }
    exists evs. split; [exact H1|]. apply H8. vm_compute. split; discriminate.
Defined.

(** C4, as stated, fails: the Register for port 70000 on connection [6]
    and the Register on connection [7] for port 9001, which cannot be
    bound, are both rejected with no forward and no store entry, but
    neither connection is closed. *)
Lemma register_rejected_not_closed :
  let o6 := handle Demo.env 6%nat Demo.world0 in
  let o7 := handle Demo.env 7%nat Demo.world0 in
  ¬ (0 ≤ ParseRegisterPacket Demo.env Demo.port_70000 ≤ 65535) ∧
  net_Listen Demo.env ":9001" = inr "bind: address already in use" ∧
  srv (world_of o6) = srv Demo.world0 ∧
  srv (world_of o7) = srv Demo.world0 ∧
  ¬ conn_closed 6%nat (trace (world_of o6)) ∧
  ¬ conn_closed 7%nat (trace (world_of o7)).
Proof.
  cbv zeta. split; [vm_compute; intros [_ H]; by apply H|].
  split; [reflexivity|]. split; [reflexivity|]. split; [reflexivity|].
  split; vm_compute; intros H.
  - inversion H as [|? ? ? H']. inversion H'.
  - inversion H as [|? ? ? H']. inversion H' as [|? ? ? H'']. inversion H''.
Qed.

(** ** Register: the accept loop and the minting of ids *)

Section Minting.
Context (E : Env).
Implicit Types (w : World) (commuConn userConn : Conn) (incoming : list Conn).

Lemma mint_fits userConn commuConn w :
  uuids_fit E → mint E userConn commuConn w = Ok tt (minted E userConn commuConn w).
Proof.
  intros Hfit. unfold mint, slice_to.
  by rewrite bool_decide_eq_true_2 by apply Hfit.
Qed.

Lemma run_mints commuConn incoming w :
  uuids_fit E →
  run_tasks E (map (λ u, TMint u commuConn) incoming) w
  = Ok tt (after_mints E commuConn incoming w).
Proof.
  intros Hfit. revert w. induction incoming as [|u rest IH]; intros w; [done|].
  simpl. unfold bind. simpl. rewrite (mint_fits u commuConn w Hfit). simpl.
  apply IH.
Qed.

Lemma accept_loop_spawns commuConn incoming w :
  accept_loop commuConn incoming w = Ok tt (after_accepts commuConn incoming w).
Proof.
  revert w. induction incoming as [|u rest IH]; intros w.
  - unfold after_accepts. simpl. rewrite !app_nil_r. by destruct w.
  - simpl. unfold bind. simpl. rewrite IH. f_equal.
    unfold after_accepts. simpl. by rewrite <- !app_assoc.
Qed.

Lemma after_mints_trace commuConn incoming w :
  trace (after_mints E commuConn incoming w)
  = trace w ++ map (EvSend commuConn ExchangeMsg) (cids E (uuids_drawn w) (length incoming)).
Proof.
  revert w. induction incoming as [|u rest IH]; intros w.
  - simpl. by rewrite app_nil_r.
  - simpl. rewrite IH. simpl. by rewrite <- app_assoc.
Qed.

Lemma after_mints_store commuConn incoming w :
  conns (connMap (srv (after_mints E commuConn incoming w)))
  = foldl (λ m kv, <[kv.1 := kv.2]> m) (conns (connMap (srv w)))
      (zip (cids E (uuids_drawn w) (length incoming)) incoming).
Proof.
  revert w. induction incoming as [|u rest IH]; intros w; [done|].
  simpl. by rewrite IH.
Qed.

Lemma after_mints_rest commuConn incoming w :
  forwards (srv (after_mints E commuConn incoming w)) = forwards (srv w) ∧
  traffics (srv (after_mints E commuConn incoming w)) = traffics (srv w) ∧
  uuids_drawn (after_mints E commuConn incoming w)
  = (uuids_drawn w + length incoming)%nat.
Proof.
  revert w. induction incoming as [|u rest IH]; intros w.
  - simpl. repeat split; lia.
  - simpl. destruct (IH (minted E u commuConn w)) as (-> & -> & ->).
    simpl. repeat split; lia.
Qed.

End Minting.

(** Frames on a trace. *)
Lemma frames_sent_app c t tr1 tr2 :
  frames_sent c t (tr1 ++ tr2) = frames_sent c t tr1 ++ frames_sent c t tr2.
Proof.
  induction tr1 as [|e tr1 IH]; [done|].
  destruct e; simpl; try done. case_decide; simpl; by rewrite IH.
Qed.

Lemma frames_sent_sends c t (ids : list string) :
  frames_sent c t (map (EvSend c t) ids) = ids.
Proof.
  induction ids as [|i ids IH]; [done|].
  simpl. rewrite decide_True by done. by rewrite IH.
Qed.

Lemma frames_sent_no_send c t tr :
  filter is_send tr = [] → frames_sent c t tr = [].
Proof.
  induction tr as [|e tr IH]; [done|].
  destruct e; simpl; try (intros; by apply IH).
  rewrite filter_cons. simpl. discriminate.
Qed.

(** Inserting pairs with pairwise distinct keys that the map does not hold. *)
Lemma foldl_insert_fresh (kvs : list (string * nat)) (m : gmap string nat) :
  NoDup kvs.*1 → (∀ k, k ∈ kvs.*1 → m !! k = None) →
  size (foldl (λ m kv, <[kv.1 := kv.2]> m) m kvs) = (size m + length kvs)%nat ∧
  (∀ k v, (k, v) ∈ kvs → foldl (λ m kv, <[kv.1 := kv.2]> m) m kvs !! k = Some v) ∧
  (∀ k, k ∉ kvs.*1 → foldl (λ m kv, <[kv.1 := kv.2]> m) m kvs !! k = m !! k).
Proof.
  revert m. induction kvs as [|[k0 v0] kvs IH]; intros m Hnd Hfresh.
  - simpl. split; [lia|]. split; [|done]. intros k v Hin. inversion Hin.
  - simpl in *. apply NoDup_cons in Hnd as [Hk0 Hnd].
    destruct (IH (<[k0:=v0]> m) Hnd) as (Hsize & Hin & Hout).
    { intros k Hk. rewrite lookup_insert_ne; [apply Hfresh; by right|].
      intros ->. done. }
    split; [|split].
    + rewrite Hsize, map_size_insert_None; [lia|]. apply Hfresh. left.
    + intros k v Hkv. apply elem_of_cons in Hkv as [[= -> ->]|Hkv].
      * rewrite Hout by done. apply lookup_insert_eq.
      * by apply Hin.
    + intros k Hk. apply not_elem_of_cons in Hk as [Hne Hk].
      rewrite Hout by done. by rewrite lookup_insert_ne.
Qed.

Lemma handleForward_accepts E (w : World) (commuConn : Conn) (buf : bytes) l :
  0 ≤ ParseRegisterPacket E buf ≤ 65535 →
  net_Listen E (Sprintf_port (ParseRegisterPacket E buf)) = inl l →
  handleForward E commuConn buf w
  = Ok tt (forwarded E commuConn (ParseRegisterPacket E buf) l w).
Proof.
  intros Hp Hl. unfold handleForward. rewrite (isInvaliedPort_valid _ Hp).
  unfold bind at 1. unfold tell at 1. cbn [obind]. rewrite Hl.
  unfold bind, logger_InfoF, tell, addForward, modify_srv. cbn [obind].
  rewrite accept_loop_spawns. cbn [obind]. unfold Listener_Close, tell, forwarded.
  do 3 f_equal. unfold emit, set_srv. simpl. by rewrite <- app_assoc.
Qed.

(** C2, as amended.  On a forward for a valid port that could be bound,
    every inbound connection accepted starts exactly one goroutine, which
    makes one [Add] to the correlation store and sends one Exchange frame
    on the control connection, both with the same id: the first
    [Len - 1] characters of a newly drawn UUID.  Nothing compares that id
    with the ids issued before; when the ids of the forward are pairwise
    distinct and none is in the store already, the store grows by one
    entry for every connection, each id bound to its connection. *)
Theorem handleForward_mints E (w : World) (commuConn : Conn) (buf : bytes) (l : Listener) :
  let port := ParseRegisterPacket E buf in
  let incoming := accepted E l in
  let ids := cids E (uuids_drawn w) (length incoming) in
  0 ≤ port ≤ 65535 →
  net_Listen E (Sprintf_port port) = inl l →
  uuids_fit E →
  ∃ w1 w2,
    handleForward E commuConn buf w = Ok tt w1 ∧
    spawned w1 = spawned w ++ map (λ u, TMint u commuConn) incoming ∧
    connMap (srv w1) = connMap (srv w) ∧
    frames_sent commuConn ExchangeMsg (trace w1) = frames_sent commuConn ExchangeMsg (trace w) ∧
    run_tasks E (map (λ u, TMint u commuConn) incoming) w1 = Ok tt w2 ∧
    length ids = length incoming ∧
    trace w2 = trace w1 ++ map (EvSend commuConn ExchangeMsg) ids ∧
    frames_sent commuConn ExchangeMsg (trace w2)
      = frames_sent commuConn ExchangeMsg (trace w) ++ ids ∧
    conns (connMap (srv w2))
      = foldl (λ m kv, <[kv.1 := kv.2]> m) (conns (connMap (srv w))) (zip ids incoming) ∧
    (NoDup ids → (∀ cid, cid ∈ ids → conns (connMap (srv w)) !! cid = None) →
       size (conns (connMap (srv w2)))
         = (size (conns (connMap (srv w))) + length incoming)%nat ∧
       ∀ i cid userConn, ids !! i = Some cid → incoming !! i = Some userConn →
         conns (connMap (srv w2)) !! cid = Some userConn).
Proof.
  intros port incoming ids Hp Hl Hfit.
  assert (length ids = length incoming) as Hlen.
  { unfold ids, cids. by rewrite length_map, length_seq. }
  exists (forwarded E commuConn port l w).
  exists (after_mints E commuConn incoming (forwarded E commuConn port l w)).
  split; [by apply handleForward_accepts|].
  split; [done|]. split; [done|].
  assert (frames_sent commuConn ExchangeMsg (trace (forwarded E commuConn port l w))
          = frames_sent commuConn ExchangeMsg (trace w)) as Hsent1.
  { unfold forwarded. simpl. rewrite !frames_sent_app. simpl.
    rewrite (frames_sent_no_send _ _ (replicate _ _)), !app_nil_r; [done|].
    induction (length (accepted E l)) as [|n IH]; [done|].
    simpl. by rewrite filter_cons. }
  split; [exact Hsent1|].
  split; [by apply run_mints|]. split; [exact Hlen|].
  set (w1 := forwarded E commuConn port l w) in *.
  assert (uuids_drawn w1 = uuids_drawn w) as Hdrawn by done.
  assert (conns (connMap (srv w1)) = conns (connMap (srv w))) as Hstore by done.
  pose proof (after_mints_trace E commuConn incoming w1) as Htrace.
  pose proof (after_mints_store E commuConn incoming w1) as Hmap.
  rewrite Hdrawn in Htrace, Hmap. rewrite Hstore in Hmap. fold ids in Htrace, Hmap.
  clearbody w1.
  split; [exact Htrace|].
  split.
  { rewrite Htrace, frames_sent_app, frames_sent_sends. f_equal. exact Hsent1. }
  split; [exact Hmap|].
  intros Hnd Hfresh. rewrite Hmap.
  assert ((zip ids incoming).*1 = ids) as Hfst.
  { apply fst_zip. lia. }
  destruct (foldl_insert_fresh (zip ids incoming) (conns (connMap (srv w))))
    as (Hsize & Hin & _).
  { by rewrite Hfst. }
  { intros k Hk. apply Hfresh. by rewrite <- Hfst. }
  split.
  - rewrite Hsize, length_zip. lia.
  - intros i cid userConn Hi Hu. apply Hin.
    apply list_elem_of_lookup. exists i. apply lookup_zip_Some. by split.
Qed.

(** An instance: from the third UUID on, the ids of the demo environment
    differ; the two connections accepted on [":9000"] get an entry each. *)
Lemma handleForward_mints_witness :
  ∃ w1 w2,
    handleForward Demo.env 1%nat Demo.port_9000 (draw (draw Demo.world0)) = Ok tt w1 ∧
    run_tasks Demo.env [TMint 10%nat 1%nat; TMint 11%nat 1%nat] w1 = Ok tt w2 ∧
    frames_sent 1%nat ExchangeMsg (trace w2) = ["bbbbbbbb"; "cccccccc"] ∧
    size (conns (connMap (srv w2))) = 2%nat.
Proof.
  assert (uuids_fit Demo.env) as Hfit.
  { intros n. do 5 (destruct n as [|n]; [vm_compute; split; discriminate|]).
    vm_compute; split; discriminate. }
  destruct (handleForward_mints Demo.env (draw (draw Demo.world0)) 1%nat Demo.port_9000
              100%nat) as (w1 & w2 & H1 & _ & _ & _ & H5 & _ & _ & H8 & _ & H10).
  { vm_compute. split; discriminate. }
  { reflexivity. }
  { exact Hfit. }
  exists w1, w2. split; [exact H1|]. split; [exact H5|]. split; [exact H8|].
  destruct H10 as [Hsize _].
  - vm_compute. apply NoDup_cons. split.
    + intros H. inversion H as [|? ? ? H']. inversion H'.
    + apply NoDup_singleton.
  - intros cid Hcid. reflexivity.
  - exact Hsize.
Defined.

(** C2, as stated, fails: two UUIDs that differ may agree on their first
    [Len - 1] characters.  The two connections accepted on [":9000"] are
    then announced with the same id, ["aaaaaaaa"], and the second [Add]
    replaces the entry of the first: after both the store holds one
    entry, for connection [11]. *)
Lemma minted_ids_repeat :
  let w1 := world_of (handle Demo.env 1%nat Demo.world0) in
  let w2 := world_of (run_tasks Demo.env (spawned w1) w1) in
  uuid_NewString Demo.env 0 ≠ uuid_NewString Demo.env 1 ∧
  spawned w1 = [TMint 10%nat 1%nat; TMint 11%nat 1%nat] ∧
  frames_sent 1%nat ExchangeMsg (trace w2) = ["aaaaaaaa"; "aaaaaaaa"] ∧
  ¬ NoDup (frames_sent 1%nat ExchangeMsg (trace w2)) ∧
  size (conns (connMap (srv w2))) = 1%nat ∧
  conns (connMap (srv w2)) !! "aaaaaaaa" = Some 11%nat.
Proof.
  cbv zeta. split; [vm_compute; discriminate|]. split; [reflexivity|].
  assert (frames_sent 1%nat ExchangeMsg
            (trace (world_of (run_tasks Demo.env
               (spawned (world_of (handle Demo.env 1%nat Demo.world0)))
               (world_of (handle Demo.env 1%nat Demo.world0)))))
          = ["aaaaaaaa"; "aaaaaaaa"]) as Hsent by (vm_compute; reflexivity).
  split; [exact Hsent|]. split.
  - rewrite Hsent. intros Hnd. apply NoDup_cons in Hnd as [Hnin _].
    apply Hnin. left.
  - split; vm_compute; reflexivity.
Qed.

(** ** Start-up: configuration, main listener, admin routine *)

Section Startup.
Context (E : Env).
Implicit Types (w : World) (cfgFile : string).

Lemma serve_loop_spawns (incoming : list Conn) w :
  serve_loop incoming w
  = Ok tt {| srv := srv w;
             trace := trace w ++ [EvLog Info "Error accepting: %v"];
             spawned := spawned w ++ map THandle incoming;
             uuids_drawn := uuids_drawn w |}.
Proof.
  revert w. induction incoming as [|c rest IH]; intros w.
  - simpl. unfold logger_InfoF, tell, emit. by rewrite app_nil_r.
  - simpl. unfold bind. simpl. rewrite IH. simpl. by rewrite <- app_assoc.
Qed.

(** The world [Run] ends in: aborted when the main port cannot be bound,
    returned from when [Accept] fails. *)
Lemma Run_outcome w :
  let addr := Sprintf_port (Port (cfg (srv w))) in
  match net_Listen E addr with
  | inr err =>
      Run E w = Exit (emit [EvListen addr; EvLog Fatal "Error listening: %v"]
                       (spawn TStartAdmin w))
  | inl listener =>
      Run E w
      = Ok tt {| srv := srv w;
                 trace := trace w ++ [EvListen addr;
                                      EvLog Info "Server listen on port %d";
                                      EvLog Info "Error accepting: %v";
                                      EvCloseListener listener];
                 spawned := spawned w ++ TStartAdmin :: map THandle (accepted E listener);
                 uuids_drawn := uuids_drawn w |}
  end.
Proof.
  intros addr. unfold Run, bind, go, get_srv, tell. cbn [obind].
  change (srv (spawn TStartAdmin w)) with (srv w).
  fold addr. destruct (net_Listen E addr) as [listener|err].
  - unfold logger_InfoF, tell. cbn [obind]. rewrite serve_loop_spawns. cbn [obind].
    unfold Listener_Close, tell, emit. simpl. f_equal. f_equal.
    + by rewrite <- !app_assoc.
    + by rewrite <- app_assoc.
  - unfold logger_FatalF, emit. simpl. by rewrite <- app_assoc.
Qed.

(** A main port that cannot be bound ends the process. *)
Lemma Run_bind_failure w err :
  net_Listen E (Sprintf_port (Port (cfg (srv w)))) = inr err →
  Run E w = Exit (emit [EvListen (Sprintf_port (Port (cfg (srv w))));
                        EvLog Fatal "Error listening: %v"] (spawn TStartAdmin w)).
Proof. intros Hl. pose proof (Run_outcome w) as H. simpl in H. by rewrite Hl in H. Qed.

(** A configuration file that cannot be read ends the process. *)
Lemma parseConfig_unreadable cfgFile w err :
  os_ReadFile E cfgFile = inr err →
  parseConfig E cfgFile w = Exit (emit [EvLog Fatal "Error reading config file: %v"] w).
Proof. intros Hr. unfold parseConfig, bind. by rewrite Hr. Qed.

Lemma Command_Run_unreadable cfgFile flagCfg w err :
  cfgFile ≠ "" → os_ReadFile E cfgFile = inr err →
  Command_Run E cfgFile flagCfg w
  = Exit (emit [EvLog Fatal "Error reading config file: %v"] w).
Proof.
  intros Hne Hr. unfold Command_Run. rewrite decide_True by done.
  unfold bind. by rewrite (parseConfig_unreadable cfgFile w err Hr).
Qed.

Lemma parseConfig_readable cfgFile w data :
  os_ReadFile E cfgFile = inl data →
  parseConfig E cfgFile w
  = Ok (toml_Unmarshal E data {| Port := 0; AdminPort := 0 |}).1 w.
Proof. intros Hr. unfold parseConfig, bind. by rewrite Hr. Qed.

Lemma startAdmin_outcome w :
  let addr := ":" +:+ Itoa (AdminPort (cfg (srv w))) in
  let w' := emit [EvHttpHandle "/static/"; EvHttpHandle "/";
                  EvHttpListenAndServe addr] w in
  startAdmin E w
  = match template_ParseFS E with
    | Some _ => Panic w
    | None =>
        match http_ListenAndServe E addr with
        | Some err => Exit (emit [EvLog Fatal "admin server error: %v"] w')
        | None => Forever w'
        end
    end.
Proof.
  intros addr w'. unfold startAdmin. destruct (template_ParseFS E); [done|].
  unfold bind, tell, get_srv. cbn [obind].
  rewrite !srv_emit. fold addr. destruct (http_ListenAndServe E addr);
    unfold logger_FatalF, w', emit; simpl; by rewrite <- !app_assoc.
Qed.

Lemma StartAdmin_disabled w :
  AdminPort (cfg (srv w)) = 0 → StartAdmin E w = Ok tt w.
Proof.
  intros Hzero. unfold StartAdmin, bind, get_srv. cbn [obind].
  by rewrite decide_True by done.
Qed.

Lemma StartAdmin_enabled w :
  AdminPort (cfg (srv w)) ≠ 0 → StartAdmin E w = startAdmin E w.
Proof.
  intros Hport. unfold StartAdmin, bind, get_srv. cbn [obind].
  by rewrite decide_False by done.
Qed.

End Startup.



(** C9: the code on a configuration file that can be read but not parsed.
    [parseConfig] drops the error of [toml.Unmarshal] and returns the
    record as the decoder left it; the process does not end there, and the
    command goes on to [Run] with that record. *)
Theorem parseConfig_ignores_parse_error E (w : World) (cfgFile : string)
    (flagCfg : Config) (data : bytes) (c : Config) (err : Err) :
  cfgFile ≠ "" →
  os_ReadFile E cfgFile = inl data →
  toml_Unmarshal E data {| Port := 0; AdminPort := 0 |} = (c, Some err) →
  parseConfig E cfgFile w = Ok c w ∧
  Command_Run E cfgFile flagCfg w = Run E (set_srv (λ _, newServer c) w).
Proof.
  intros Hne Hr Hu.
  assert (parseConfig E cfgFile w = Ok c w) as Hp.
  { rewrite (parseConfig_readable E cfgFile w data Hr). by rewrite Hu. }
  split; [exact Hp|].
  unfold Command_Run. rewrite decide_True by done.
  unfold bind at 1. rewrite Hp. cbn [obind]. unfold bind, modify_srv. by cbn [obind].
Qed.

Lemma parseConfig_ignores_parse_error_witness :
  parseConfig Demo.env "pipe.toml" Demo.world0
    = Ok {| Port := 0; AdminPort := 0 |} Demo.world0 ∧
  returned (Command_Run Demo.env "pipe.toml" {| Port := 8910; AdminPort := 0 |}
              Demo.world0) = true.
Proof.
  destruct (parseConfig_ignores_parse_error Demo.env Demo.world0 "pipe.toml"
              {| Port := 8910; AdminPort := 0 |} [x70; x6f; x72; x74; x20; x3d]
              {| Port := 0; AdminPort := 0 |} "toml: expected value")
    as (H1 & H2); [discriminate | reflexivity | reflexivity |].
  split; [exact H1|]. rewrite H2. reflexivity.
Defined.


(** * Further properties of the engine *)

(** ** The forward registry: what a Cancel touches *)

Lemma filter_none {A} (P : A → Prop) `{∀ x, Decision (P x)} (l : list A) :
  (∀ x, x ∈ l → ¬ P x) → filter P l = [].
Proof.
  induction l as [|a l IH]; intros Hno; [done|].
  rewrite filter_cons_False by (apply Hno; left).
  apply IH. intros x Hx. apply Hno. by right.
Qed.

Lemma filter_all {A} (P : A → Prop) `{∀ x, Decision (P x)} (l : list A) :
  (∀ x, x ∈ l → P x) → filter P l = l.
Proof.
  induction l as [|a l IH]; intros Hall; [done|].
  rewrite filter_cons_True by (apply Hall; left).
  f_equal. apply IH. intros x Hx. apply Hall. by right.
Qed.

(** [delForward] always returns: either no forward has the target and the
    world is as before, or the first one that has it is taken out. *)
Lemma delForward_cases (to : string) (w : World) :
  ((∀ g, g ∈ forwards (srv w) → To g ≠ to) ∧ delForward to w = Ok tt w) ∨
  (∃ l1 f l2,
     forwards (srv w) = l1 ++ f :: l2 ∧ To f = to ∧ (∀ g, g ∈ l1 → To g ≠ to) ∧
     delForward to w
     = Ok tt (set_srv (with_forwards (λ _, l1 ++ l2))
                (emit [EvCloseListener (uListener f)] w))).
Proof.
  destruct (decide (Exists (λ f, To f = to) (forwards (srv w)))) as [Hex|Hno].
  - right. apply Exists_exists in Hex.
    destruct (first_match_split to _ Hex) as (l1 & f & l2 & Hfs & Hf & Hl1).
    exists l1, f, l2. do 3 (split; [done|]).
    by apply delForward_first_match.
  - left. assert (∀ g, g ∈ forwards (srv w) → To g ≠ to) as Hall.
    { intros g Hg Heq. apply Hno, Exists_exists. by exists g. }
    split; [done|]. by apply delForward_no_match.
Qed.

(** The effect of [handleCancel] in one statement. *)
Lemma handleCancel_effect (rPort : Z) (w : World) :
  let to := Sprintf_port rPort in
  ∃ w', handleCancel rPort w = Ok tt w' ∧
    cfg (srv w') = cfg (srv w) ∧
    connMap (srv w') = connMap (srv w) ∧
    traffics (srv w') = traffics (srv w) ∧
    spawned w' = spawned w ∧
    sublist (forwards (srv w')) (forwards (srv w)) ∧
    (length (forwards (srv w)) - 1 ≤ length (forwards (srv w')))%nat ∧
    filter (λ f, To f ≠ to) (forwards (srv w'))
      = filter (λ f, To f ≠ to) (forwards (srv w)) ∧
    filter (λ f, To f = to) (forwards (srv w'))
      = tail (filter (λ f, To f = to) (forwards (srv w))) ∧
    ((∀ g, g ∈ forwards (srv w) → To g ≠ to) →
       w' = emit [EvLog Info "Cancel forward to port %d"] w).
Proof.
  intros to. unfold handleCancel, bind. fold to.
  destruct (delForward_cases to w) as [[Hno ->]|(l1 & f & l2 & Hfs & Hf & Hl1 & ->)].
  - eexists. split; [reflexivity|]. simpl. do 5 (split; [done|]).
    split; [lia|]. split; [done|].
    split; [|done]. by rewrite (filter_none (λ f, To f = to)).
  - eexists. split; [reflexivity|]. simpl. do 4 (split; [done|]).
    rewrite Hfs. split; [|split; [|split; [|split]]].
    + apply sublist_app; [done|]. by apply sublist_cons.
    + rewrite !length_app. simpl. lia.
    + rewrite !filter_app, filter_cons_False; [done|]. intros Hne. by apply Hne.
    + rewrite !filter_app, filter_cons_True by done.
      by rewrite (filter_none (λ f, To f = to) l1).
    + intros Hno. exfalso. apply (Hno f); [|done].
      rewrite elem_of_app. right. left.
Qed.

(** X1.  A Cancel always returns and takes at most one forward out of the
    registry: the forwards to other targets are the same, in the same
    order, those to the cancelled target lose their first one, and the
    correlation store, the traffic records and the configuration are not
    touched. *)
Theorem handleCancel_removes_first_only (rPort : Z) (w : World) :
  let to := Sprintf_port rPort in
  ∃ w', handleCancel rPort w = Ok tt w' ∧
    filter (λ f, To f ≠ to) (forwards (srv w'))
      = filter (λ f, To f ≠ to) (forwards (srv w)) ∧
    filter (λ f, To f = to) (forwards (srv w'))
      = tail (filter (λ f, To f = to) (forwards (srv w))) ∧
    sublist (forwards (srv w')) (forwards (srv w)) ∧
    (length (forwards (srv w)) - 1 ≤ length (forwards (srv w')))%nat ∧
    connMap (srv w') = connMap (srv w) ∧
    traffics (srv w') = traffics (srv w) ∧
    cfg (srv w') = cfg (srv w).
Proof.
  intros to.
  destruct (handleCancel_effect rPort w)
    as (w' & Hh & Hc & Hm & Ht & _ & Hsub & Hlen & Hne & Heq & _).
  exists w'. by do 7 (split; [done|]).
Qed.

(** X2.  Cancelling twice: when the registry holds at most one forward to
    the target, the first Cancel leaves none, and a second Cancel for the
    same port closes nothing and leaves the server as the first one left
    it; it only writes its log line. *)
Theorem handleCancel_twice (rPort : Z) (w : World) :
  let to := Sprintf_port rPort in
  (length (filter (λ f, To f = to) (forwards (srv w))) ≤ 1)%nat →
  ∃ w1, handleCancel rPort w = Ok tt w1 ∧
    (∀ g, g ∈ forwards (srv w1) → To g ≠ to) ∧
    handleCancel rPort w1
    = Ok tt (emit [EvLog Info "Cancel forward to port %d"] w1).
Proof.
  intros to Hone.
  destruct (handleCancel_effect rPort w) as (w1 & Hh & _ & _ & _ & _ & _ & _ & _ & Heq & _).
  fold to in Heq.
  assert (∀ g, g ∈ forwards (srv w1) → To g ≠ to) as Hno.
  { intros g Hg Hto.
    assert (g ∈ filter (λ f, To f = to) (forwards (srv w1))) as Hin
      by (by apply list_elem_of_filter).
    rewrite Heq in Hin.
    destruct (filter (λ f, To f = to) (forwards (srv w))) as [|a [|b l]];
      simpl in *; [inversion Hin | inversion Hin | lia]. }
  exists w1. do 2 (split; [done|]).
  destruct (handleCancel_effect rPort w1) as (w2 & Hh2 & _ & _ & _ & _ & _ & _ & _ & _ & Hlog).
  rewrite Hh2. f_equal. by apply Hlog.
Qed.

Lemma handleCancel_twice_witness :
  ∃ w1, handleCancel 9000 Demo.world_forwards = Ok tt w1 ∧
        handleCancel 9000 w1 = Ok tt (emit [EvLog Info "Cancel forward to port %d"] w1).
Proof.
  destruct (handleCancel_twice 9000 Demo.world_forwards) as (w1 & H1 & _ & H3).
  { vm_compute. lia. }
  exists w1. split; [exact H1 | exact H3].
Defined.

(** Two ports have the same target address only when they are equal. *)
Lemma Sprintf_port_inj (p q : Z) : Sprintf_port p = Sprintf_port q → p = q.
Proof.
  unfold Sprintf_port. simpl. intros [= Heq]. by apply (inj pretty).
Qed.

(** X3.  A Cancel for one port does not touch the forwards of another
    port: a forward registered for port [p] is still in the registry after
    a Cancel for any port other than [p]. *)
Theorem handleCancel_other_port (rPort p : Z) (f : Forward) (w : World) :
  f ∈ forwards (srv w) → To f = Sprintf_port p → p ≠ rPort →
  ∃ w', handleCancel rPort w = Ok tt w' ∧
    f ∈ forwards (srv w') ∧
    filter (λ g, To g = Sprintf_port p) (forwards (srv w'))
      = filter (λ g, To g = Sprintf_port p) (forwards (srv w)).
Proof.
  intros Hin Hto Hne.
  assert (Sprintf_port p ≠ Sprintf_port rPort) as Hdiff
    by (intros Heq; by apply Hne, Sprintf_port_inj).
  destruct (handleCancel_effect rPort w) as (w' & Hh & _ & _ & _ & _ & _ & _ & Hkeep & _).
  exists w'. split; [done|].
  assert (filter (λ g, To g = Sprintf_port p) (forwards (srv w'))
          = filter (λ g, To g = Sprintf_port p) (forwards (srv w))) as Hsame.
  { rewrite <- (list_filter_filter_l (λ g, To g = Sprintf_port p)
                 (λ g, To g ≠ Sprintf_port rPort) (forwards (srv w')))
      by (intros g Hg; congruence).
    rewrite Hkeep. apply list_filter_filter_l. intros g Hg. congruence. }
  split; [|done].
  assert (f ∈ filter (λ g, To g = Sprintf_port p) (forwards (srv w))) as Hf
    by (by apply list_elem_of_filter).
  rewrite <- Hsame in Hf. by apply list_elem_of_filter in Hf as [_ ?].
Qed.

Lemma handleCancel_other_port_witness :
  ∃ w', handleCancel 9001 Demo.world_forwards = Ok tt w' ∧
        {| From := "10.0.0.1:2"; To := ":9000"; uListener := 100%nat |}
          ∈ forwards (srv w').
Proof.
  destruct (handleCancel_other_port 9001 9000
              {| From := "10.0.0.1:2"; To := ":9000"; uListener := 100%nat |}
              Demo.world_forwards) as (w' & H1 & H2 & _).
  { right. left. }
  { reflexivity. }
  { lia. }
  exists w'. split; [exact H1 | exact H2].
Defined.

(** ** Register: what the handler leaves behind *)

(** [handleForward] always returns, in one of three ways. *)
Lemma handleForward_cases E (w : World) (commuConn : Conn) (buf : bytes) :
  let port := ParseRegisterPacket E buf in
  (¬ (0 ≤ port ≤ 65535) ∧
   handleForward E commuConn buf w
   = Ok tt (emit [EvLog Error "Invalid forward to port: %d"] w)) ∨
  (0 ≤ port ≤ 65535 ∧ (∃ err, net_Listen E (Sprintf_port port) = inr err) ∧
   handleForward E commuConn buf w
   = Ok tt (emit [EvListen (Sprintf_port port);
                  EvLog Error "Error listening: %v, port: %d"] w)) ∨
  (0 ≤ port ≤ 65535 ∧
   ∃ l, net_Listen E (Sprintf_port port) = inl l ∧
        handleForward E commuConn buf w = Ok tt (forwarded E commuConn port l w)).
Proof.
  intros port. destruct (decide (0 ≤ port ≤ 65535)) as [Hp|Hp].
  - right. destruct (net_Listen E (Sprintf_port port)) as [l|err] eqn:Hl.
    + right. split; [done|]. exists l. split; [done|]. by apply handleForward_accepts.
    + left. split; [done|]. split; [by exists err|].
      by apply (handleForward_bind_failure E w commuConn buf err).
  - left. split; [done|]. by apply handleForward_invalid_port.
Qed.

(** The handler up to its accept loop, in its three ways. *)
Lemma handleForward_open_cases E (w : World) (commuConn : Conn) (buf : bytes) :
  let port := ParseRegisterPacket E buf in
  (¬ (0 ≤ port ≤ 65535) ∧
   handleForward_open E commuConn buf w
   = Ok None (emit [EvLog Error "Invalid forward to port: %d"] w)) ∨
  (0 ≤ port ≤ 65535 ∧ (∃ err, net_Listen E (Sprintf_port port) = inr err) ∧
   handleForward_open E commuConn buf w
   = Ok None (emit [EvListen (Sprintf_port port);
                    EvLog Error "Error listening: %v, port: %d"] w)) ∨
  (0 ≤ port ≤ 65535 ∧
   ∃ l, net_Listen E (Sprintf_port port) = inl l ∧
        handleForward_open E commuConn buf w
        = Ok (Some l)
            (set_srv (with_forwards (λ fs, fs ++ [ {| From := RemoteAddr E commuConn;
                                                      To := Sprintf_port port;
                                                      uListener := l |} ]))
               (emit [EvListen (Sprintf_port port);
                      EvLog Info "Listening on forwarding port %d"] w))).
Proof.
  intros port. unfold handleForward_open. fold port.
  destruct (decide (0 ≤ port ≤ 65535)) as [Hp|Hp].
  - right. rewrite (isInvaliedPort_valid _ Hp). unfold bind at 1. unfold tell at 1.
    cbn [obind]. destruct (net_Listen E (Sprintf_port port)) as [l|err] eqn:Hl.
    + right. split; [done|]. exists l. split; [done|].
      unfold bind, logger_InfoF, tell, addForward, modify_srv, ret. cbn [obind].
      f_equal. unfold emit, set_srv. simpl. by rewrite <- app_assoc.
    + left. split; [done|]. split; [by exists err|].
      unfold bind, logger_ErrorF, tell, ret. cbn [obind]. f_equal.
      unfold emit. simpl. by rewrite <- app_assoc.
  - left. split; [done|]. apply isInvaliedPort_spec in Hp. by rewrite Hp.
Qed.

(** Alone, the loop among goroutines is the accept loop. *)
Lemma accept_loop_among_alone E (commuConn : Conn) (incoming : list Conn) (w : World) :
  accept_loop_among E commuConn (map (λ u, (u, [])) incoming) w
  = accept_loop commuConn incoming w.
Proof.
  revert w. induction incoming as [|u rest IH]; intros w; [done|].
  simpl. unfold bind, accept_turn, bind. simpl. apply IH.
Qed.

(** With no other goroutine running and the connections of the
    environment, the handler among goroutines is [handleForward]. *)
Lemma handleForward_among_alone E (w : World) (commuConn : Conn) (buf : bytes) :
  handleForward E commuConn buf w
  = handleForward_among E commuConn buf
      (match net_Listen E (Sprintf_port (ParseRegisterPacket E buf)) with
       | inl l => map (λ u, (u, [])) (accepted E l)
       | inr _ => []
       end) [] w.
Proof.
  unfold handleForward_among, bind.
  destruct (handleForward_open_cases E w commuConn buf)
    as [(Hp & ->)|[(Hp & (err & Hl) & ->)|(Hp & l & Hl & ->)]]; cbn [obind].
  - by rewrite (handleForward_invalid_port E w commuConn buf Hp).
  - by rewrite (handleForward_bind_failure E w commuConn buf err Hp Hl).
  - rewrite (handleForward_accepts E w commuConn buf l Hp Hl), Hl.
    rewrite accept_loop_among_alone, accept_loop_spawns. cbn [obind]. simpl.
    unfold forwarded, Listener_Close, tell. done.
Qed.

(** The loop when the minting goroutine of every connection runs right
    after the turn that started it. *)
Lemma accept_loop_among_mints E (commuConn : Conn) (incoming : list Conn) (w : World) :
  uuids_fit E →
  accept_loop_among E commuConn (map (λ u, (u, [TMint u commuConn])) incoming) w
  = Ok tt (after_arrivals E commuConn incoming w).
Proof.
  intros Hfit. revert w. induction incoming as [|u rest IH]; intros w; [done|].
  simpl. unfold bind, accept_turn, bind. simpl.
  rewrite (mint_fits E u commuConn _ Hfit). simpl. apply IH.
Qed.

Lemma after_arrivals_effect E (commuConn : Conn) (incoming : list Conn) (w : World) :
  forwards (srv (after_arrivals E commuConn incoming w)) = forwards (srv w) ∧
  traffics (srv (after_arrivals E commuConn incoming w)) = traffics (srv w) ∧
  filter is_close (trace (after_arrivals E commuConn incoming w))
    = filter is_close (trace w) ∧
  frames_sent commuConn ExchangeMsg (trace (after_arrivals E commuConn incoming w))
    = frames_sent commuConn ExchangeMsg (trace w)
      ++ cids E (uuids_drawn w) (length incoming) ∧
  conns (connMap (srv (after_arrivals E commuConn incoming w)))
    = foldl (λ m kv, <[kv.1 := kv.2]> m) (conns (connMap (srv w)))
        (zip (cids E (uuids_drawn w) (length incoming)) incoming).
Proof.
  revert w. induction incoming as [|u rest IH]; intros w.
  - simpl. by rewrite app_nil_r.
  - simpl. destruct (IH (minted E u commuConn
                           (spawn (TMint u commuConn)
                              (emit [EvLog Debug "Accept new user connection: %s"] w))))
      as (-> & -> & -> & -> & ->).
    simpl. do 2 (split; [done|]). split; [by rewrite !filter_app, !app_nil_r|].
    split; [|done].
    rewrite !frames_sent_app. simpl. rewrite decide_True by done.
    by rewrite app_nil_r, <- app_assoc.
Qed.

(** X4.  Up to its accept loop a Register handler attempts a bind exactly
    when the decoded port is within 0..65535, and it registers a forward
    and goes on to accept exactly when, in addition, that bind succeeds;
    in every other case it has left the server's state as it was. *)
Theorem handleForward_open_binds_iff_valid E (w : World) (commuConn : Conn) (buf : bytes) :
  let port := ParseRegisterPacket E buf in
  let o := handleForward_open E commuConn buf w in
  ∃ evs,
    trace (world_of o) = trace w ++ evs ∧
    (0 ≤ port ≤ 65535 → filter is_listen evs = [EvListen (Sprintf_port port)]) ∧
    (¬ (0 ≤ port ≤ 65535) → filter is_listen evs = []) ∧
    (EvListen (Sprintf_port port) ∈ evs ↔ 0 ≤ port ≤ 65535) ∧
    (∀ l, (∃ w', o = Ok (Some l) w')
          ↔ 0 ≤ port ≤ 65535 ∧ net_Listen E (Sprintf_port port) = inl l) ∧
    ((∀ l w', o ≠ Ok (Some l) w') → srv (world_of o) = srv w) ∧
    (∀ l w', o = Ok (Some l) w' →
       forwards (srv w') = forwards (srv w)
                           ++ [ {| From := RemoteAddr E commuConn;
                                   To := Sprintf_port port; uListener := l |} ]).
Proof.
  intros port o. subst o.
  destruct (handleForward_open_cases E w commuConn buf)
    as [(Hp & ->)|[(Hp & (err & Hl) & ->)|(Hp & l & Hl & ->)]]; fold port in Hp.
  - exists [EvLog Error "Invalid forward to port: %d"]. simpl.
    do 3 (split; [done|]). split; [|split; [|split]].
    + split; [|done]. intros Hin. apply list_elem_of_In in Hin. simpl in Hin.
      destruct Hin as [|[]]; discriminate.
    + intros l. split; [by intros [w' ?]|by intros [? _]].
    + done.
    + by intros l w' ?.
  - exists [EvListen (Sprintf_port port); EvLog Error "Error listening: %v, port: %d"].
    simpl. do 3 (split; [done|]). split; [|split; [|split]].
    + split; [done|]. intros _. left.
    + intros l. split; [by intros [w' ?]|]. fold port in Hl. intros [_ Hl']. congruence.
    + done.
    + by intros l w' ?.
  - exists [EvListen (Sprintf_port port); EvLog Info "Listening on forwarding port %d"].
    fold port in Hl. fold port. simpl. do 3 (split; [done|]). split; [|split; [|split]].
    + split; [done|]. intros _. left.
    + intros l'. split.
      * intros [w' [= <- _]]. done.
      * intros [_ Hl']. assert (l' = l) as -> by congruence. eexists. reflexivity.
    + intros Hnot. exfalso. by eapply Hnot.
    + intros l' w' [= <- <-]. done.
Qed.

(** X5.  The handler of a Register never takes its own forward out.  When
    [Accept] fails while only the minting goroutines of the accepted
    connections have run (no Cancel), the handler closes the listener as
    its last action and returns: the registry still holds the forward,
    appended at its end, with a closed listener. *)
Theorem handleForward_among_leaves_forward E (w : World) (commuConn : Conn)
    (buf : bytes) (l : Listener) (incoming : list Conn) :
  let port := ParseRegisterPacket E buf in
  0 ≤ port ≤ 65535 →
  net_Listen E (Sprintf_port port) = inl l →
  uuids_fit E →
  ∃ w', handleForward_among E commuConn buf
          (map (λ u, (u, [TMint u commuConn])) incoming) [] w = Ok tt w' ∧
    forwards (srv w')
    = forwards (srv w) ++ [ {| From := RemoteAddr E commuConn;
                               To := Sprintf_port port;
                               uListener := l |} ] ∧
    last (trace w') = Some (EvCloseListener l) ∧
    filter is_close (trace w') = filter is_close (trace w) ++ [EvCloseListener l] ∧
    conns (connMap (srv w'))
    = foldl (λ m kv, <[kv.1 := kv.2]> m) (conns (connMap (srv w)))
        (zip (cids E (uuids_drawn w) (length incoming)) incoming).
Proof.
  intros port Hp Hl Hfit. subst port. unfold handleForward_among, bind.
  destruct (handleForward_open_cases E w commuConn buf)
    as [(Hnp & _)|[(_ & (err & Hl') & _)|(_ & l' & Hl' & ->)]];
    [done|congruence|].
  assert (l' = l) as -> by congruence. cbn [obind].
  rewrite (accept_loop_among_mints E commuConn incoming _ Hfit). cbn [obind]. simpl.
  eexists. split; [reflexivity|]. simpl.
  match goal with
  | |- context [after_arrivals E commuConn incoming ?w0] =>
      destruct (after_arrivals_effect E commuConn incoming w0) as (-> & _ & Hcl & _ & ->)
  end.
  split; [done|]. split; [by rewrite last_snoc|].
  split; [|done]. rewrite filter_app, Hcl. simpl. by rewrite filter_app, app_nil_r.
Qed.

Lemma handleForward_among_leaves_forward_witness :
  ∃ w', handleForward_among Demo.env 1%nat Demo.port_9000
          [(10%nat, [TMint 10%nat 1%nat]); (11%nat, [TMint 11%nat 1%nat])] []
          (draw (draw Demo.world0)) = Ok tt w' ∧
    forwards (srv w') = [ {| From := "10.0.0.1:1"; To := ":9000"; uListener := 100%nat |} ] ∧
    last (trace w') = Some (EvCloseListener 100%nat).
Proof.
  assert (uuids_fit Demo.env) as Hfit.
  { intros n. do 5 (destruct n as [|n]; [vm_compute; split; discriminate|]).
    vm_compute; split; discriminate. }
  destruct (handleForward_among_leaves_forward Demo.env (draw (draw Demo.world0)) 1%nat
              Demo.port_9000 100%nat [10%nat; 11%nat])
    as (w' & H1 & H2 & H3 & _).
  { vm_compute. split; discriminate. }
  { reflexivity. }
  { exact Hfit. }
  exists w'. split; [exact H1|]. split; [exact H2 | exact H3].
Defined.

(** X6.  Register, connections accepted and announced, then a Cancel for
    the port handled while the handler waits in [Accept], then [Accept]
    fails: when no forward to that port was registered before, the handler
    returns with the registry as it was before the Register.  The listener
    has been closed twice, by the Cancel and by the deferred close, and the
    entries made for the accepted connections are still in the store: the
    Cancel does not remove them. *)
Theorem register_cancelled_while_accepting E (w : World) (commuConn conn' : Conn)
    (buf cbuf : bytes) (l : Listener) (incoming : list Conn) :
  let port := ParseRegisterPacket E buf in
  0 ≤ port ≤ 65535 →
  net_Listen E (Sprintf_port port) = inl l →
  uuids_fit E →
  (∀ g, g ∈ forwards (srv w) → To g ≠ Sprintf_port port) →
  layer_Read E conn' = (CancelForward, Some cbuf, None) →
  ParseCancelPacket E cbuf = port →
  ∃ w', handleForward_among E commuConn buf
          (map (λ u, (u, [TMint u commuConn])) incoming) [THandle conn'] w = Ok tt w' ∧
    forwards (srv w') = forwards (srv w) ∧
    filter is_close (trace w')
    = filter is_close (trace w) ++ [EvCloseListener l; EvCloseListener l] ∧
    frames_sent commuConn ExchangeMsg (trace w')
    = frames_sent commuConn ExchangeMsg (trace w)
      ++ cids E (uuids_drawn w) (length incoming) ∧
    conns (connMap (srv w'))
    = foldl (λ m kv, <[kv.1 := kv.2]> m) (conns (connMap (srv w)))
        (zip (cids E (uuids_drawn w) (length incoming)) incoming).
Proof.
  intros port Hp Hl Hfit Hno Hr Hc. subst port. unfold handleForward_among, bind.
  destruct (handleForward_open_cases E w commuConn buf)
    as [(Hnp & _)|[(_ & (err & Hl') & _)|(_ & l' & Hl' & ->)]];
    [done|congruence|].
  assert (l' = l) as -> by congruence. cbn [obind].
  rewrite (accept_loop_among_mints E commuConn incoming _ Hfit). cbn [obind].
  match goal with
  | |- context [after_arrivals E commuConn incoming ?w0] =>
      set (w1 := w0);
      destruct (after_arrivals_effect E commuConn incoming w1)
        as (Hfs & _ & Hcl & Hsent & Hstore);
      set (w2 := after_arrivals E commuConn incoming w1) in *
  end.
  assert (forwards (srv w2)
          = forwards (srv w) ++ [ {| From := RemoteAddr E commuConn;
                                     To := Sprintf_port (ParseRegisterPacket E buf);
                                     uListener := l |} ])
    as Hfs2 by (by rewrite Hfs).
  simpl run_tasks. unfold bind. simpl run_task.
  rewrite (handle_dispatch E conn' _ cbuf w2 Hr), Hc.
  unfold handleCancel, bind.
  rewrite (delForward_first_match (Sprintf_port (ParseRegisterPacket E buf)) w2
             (forwards (srv w))
             {| From := RemoteAddr E commuConn;
                To := Sprintf_port (ParseRegisterPacket E buf); uListener := l |}
             [] Hfs2 eq_refl Hno).
  simpl. eexists. split; [reflexivity|]. simpl. rewrite app_nil_r.
  split; [done|]. split; [|split].
  - rewrite <- !app_assoc, filter_app, Hcl. subst w1. simpl.
    by rewrite filter_app, app_nil_r.
  - rewrite <- !app_assoc, frames_sent_app, Hsent. subst w1. simpl.
    rewrite frames_sent_app. simpl. by rewrite !app_nil_r.
  - by rewrite Hstore.
Qed.

Lemma register_cancelled_while_accepting_witness :
  ∃ w', handleForward_among Demo.env 1%nat Demo.port_9000
          [(10%nat, [TMint 10%nat 1%nat]); (11%nat, [TMint 11%nat 1%nat])] [THandle 4%nat]
          (draw (draw Demo.world0)) = Ok tt w' ∧
    forwards (srv w') = [] ∧
    size (conns (connMap (srv w'))) = 2%nat.
Proof.
  assert (uuids_fit Demo.env) as Hfit.
  { intros n. do 5 (destruct n as [|n]; [vm_compute; split; discriminate|]).
    vm_compute; split; discriminate. }
  destruct (register_cancelled_while_accepting Demo.env (draw (draw Demo.world0))
              1%nat 4%nat Demo.port_9000 Demo.port_9000 100%nat [10%nat; 11%nat])
    as (w' & H1 & H2 & _ & _ & H5).
  { vm_compute. split; discriminate. }
  { reflexivity. }
  { exact Hfit. }
  { intros g Hg. inversion Hg. }
  { reflexivity. }
  { reflexivity. }
  exists w'. split; [exact H1|]. split; [exact H2|]. rewrite H5. reflexivity.
Defined.

(** ** The ids of the correlation store *)

Lemma substring_prefix (n : nat) (s : string) :
  (n ≤ String.length s)%nat →
  String.length (String.substring 0 n s) = n ∧
  ∃ rest, s = String.substring 0 n s +:+ rest.
Proof.
  revert s. induction n as [|n IH]; intros s Hn.
  - destruct s; simpl; (split; [done|]); eexists; reflexivity.
  - destruct s as [|c s]; simpl in *; [lia|].
    destruct (IH s) as (Hlen & rest & Hrest); [lia|].
    split; [by rewrite Hlen|]. exists rest.
    change (String c s = String c (String.substring 0 n s +:+ rest)).
    by rewrite <- Hrest.
Qed.

(** X7.  When the UUID drawn is at least [Len - 1] characters long, the
    minting goroutine returns, and the id it uses is a prefix of that UUID
    of exactly [Len - 1] characters: it binds the id to the inbound
    connection in the store (replacing an entry the id may have had), sends
    the one Exchange frame with that id on the control connection, and
    touches neither the registry nor the traffic records. *)
Theorem mint_id_is_uuid_prefix E (w : World) (userConn commuConn : Conn) :
  0 ≤ Len E - 1 ≤ Z.of_nat (String.length (uuid_NewString E (uuids_drawn w))) →
  ∃ w' cid rest,
    mint E userConn commuConn w = Ok tt w' ∧
    uuid_NewString E (uuids_drawn w) = cid +:+ rest ∧
    Z.of_nat (String.length cid) = Len E - 1 ∧
    trace w' = trace w ++ [EvSend commuConn ExchangeMsg cid] ∧
    conns (connMap (srv w')) = <[cid := userConn]> (conns (connMap (srv w))) ∧
    ConnMap.Get (connMap (srv w')) cid = Some userConn ∧
    forwards (srv w') = forwards (srv w) ∧
    traffics (srv w') = traffics (srv w) ∧
    uuids_drawn w' = S (uuids_drawn w).
Proof.
  intros Hfit.
  destruct (substring_prefix (Z.to_nat (Len E - 1))
              (uuid_NewString E (uuids_drawn w))) as (Hlen & rest & Hrest); [lia|].
  exists (minted E userConn commuConn w), (cid_at E (uuids_drawn w)), rest.
  split.
  { unfold mint, slice_to. by rewrite bool_decide_eq_true_2 by done. }
  split; [exact Hrest|]. split; [unfold cid_at; rewrite Hlen; lia|].
  split; [done|]. split; [done|]. split; [|done].
  unfold ConnMap.Get. simpl. apply lookup_insert_eq.
Qed.

Lemma mint_id_is_uuid_prefix_witness :
  ∃ w', mint Demo.env 10%nat 1%nat Demo.world0 = Ok tt w' ∧
        trace w' = [EvSend 1%nat ExchangeMsg "aaaaaaaa"].
Proof.
  destruct (mint_id_is_uuid_prefix Demo.env Demo.world0 10%nat 1%nat)
    as (w' & cid & rest & H1 & H2 & H3 & H4 & _).
  { vm_compute. split; discriminate. }
  exists w'. split; [exact H1|].
  assert (Ok tt w' = mint Demo.env 10%nat 1%nat Demo.world0) as Heq by (by rewrite H1).
  vm_compute in Heq. injection Heq as ->. reflexivity.
Defined.

(** X8.  The minting goroutine returns exactly when the slice
    [[:layer.Len-1]] is within the UUID drawn.  Otherwise it panics before
    anything is stored or sent: the server's state and the trace are as
    they were. *)
Theorem mint_returns_iff_slice_in_range E (w : World) (userConn commuConn : Conn) :
  let o := mint E userConn commuConn w in
  (returned o = true
   ↔ 0 ≤ Len E - 1 ≤ Z.of_nat (String.length (uuid_NewString E (uuids_drawn w)))) ∧
  (returned o = false → o = Panic (draw w) ∧ srv (world_of o) = srv w
                        ∧ trace (world_of o) = trace w).
Proof.
  unfold mint, slice_to. cbv zeta.
  destruct (decide (0 ≤ Len E - 1
                    ≤ Z.of_nat (String.length (uuid_NewString E (uuids_drawn w)))))
    as [Hfit|Hfit].
  - rewrite bool_decide_eq_true_2 by done. simpl. split; [done|]. discriminate.
  - rewrite bool_decide_eq_false_2 by done. simpl. split; [|done].
    split; [discriminate|done].
Qed.

(** X9.  Mint, then claim: once the goroutine has run for an inbound
    connection, an Exchange frame that carries the id it sent is handed to
    the splice together with that very connection. *)
Theorem mint_then_claim E (w : World) (userConn commuConn conn : Conn) (buf : bytes) :
  0 ≤ Len E - 1 ≤ Z.of_nat (String.length (uuid_NewString E (uuids_drawn w))) →
  ∃ w1 cid,
    mint E userConn commuConn w = Ok tt w1 ∧
    frames_sent commuConn ExchangeMsg (trace w1)
      = frames_sent commuConn ExchangeMsg (trace w) ++ [cid] ∧
    (ParseExchangePacket E buf = cid →
       splicing (handleMessage E conn buf w1) = Some (conn, userConn) ∧
       world_of (handleMessage E conn buf w1) = w1).
Proof.
  intros Hfit.
  exists (minted E userConn commuConn w), (cid_at E (uuids_drawn w)).
  split.
  { unfold mint, slice_to. by rewrite bool_decide_eq_true_2 by done. }
  split.
  { simpl. rewrite frames_sent_app. simpl. by rewrite decide_True by done. }
  intros Hid.
  destruct (handleMessage_found E conn buf userConn (minted E userConn commuConn w))
    as (k & -> & _); [|done].
  rewrite Hid. unfold ConnMap.Get. simpl. apply lookup_insert_eq.
Qed.

Lemma mint_then_claim_witness :
  ∃ w1, mint Demo.env 10%nat 1%nat Demo.world0 = Ok tt w1 ∧
        splicing (handleMessage Demo.env 2%nat Demo.id_aaaaaaaa w1) = Some (2%nat, 10%nat).
Proof.
  destruct (mint_then_claim Demo.env Demo.world0 10%nat 1%nat 2%nat Demo.id_aaaaaaaa)
    as (w1 & cid & H1 & H2 & H3).
  { vm_compute. split; discriminate. }
  exists w1. split; [exact H1|]. apply H3.
  assert (Ok tt w1 = mint Demo.env 10%nat 1%nat Demo.world0) as Heq by (by rewrite H1).
  vm_compute in Heq. injection Heq as ->.
  simpl in H2. injection H2 as <-. reflexivity.
Defined.

(** ** The handler of a connection, frame by frame *)

(** [handle] either returns, with configuration and traffic records as
    they were, or is a successful Exchange claim waiting in the splice. *)
Lemma handle_outcome E (conn : Conn) (w : World) :
  (∃ w', handle E conn w = Ok tt w' ∧
         cfg (srv w') = cfg (srv w) ∧ traffics (srv w') = traffics (srv w)) ∨
  (∃ buf uConn k,
     layer_Read E conn = (ExchangeMsg, Some buf, None) ∧
     ConnMap.Get (connMap (srv w)) (ParseExchangePacket E buf) = Some uConn ∧
     handle E conn w = Splicing conn uConn w k ∧
     ∀ t w', k t w' = Ok tt (claimed (ParseExchangePacket E buf) conn uConn t w')).
Proof.
  destruct (layer_Read E conn) as [[pt [buf|]] [err|]] eqn:Hr.
  1,3,4: left; eexists; split;
    [unfold handle; rewrite Hr; reflexivity | done].
  rewrite (handle_dispatch E conn pt buf w Hr). destruct pt.
  - left. destruct (handleForward_cases E w conn buf)
      as [(_ & ->)|[(_ & _ & ->)|(_ & l & _ & ->)]]; eexists; (split; [reflexivity|done]).
  - destruct (ConnMap.Get (connMap (srv w)) (ParseExchangePacket E buf))
      as [uConn|] eqn:Hget.
    + right. destruct (handleMessage_found E conn buf uConn w Hget) as (k & Hk & Hres).
      by exists buf, uConn, k.
    + left. exists w. by rewrite (handleMessage_not_found E conn buf w Hget).
  - left. destruct (handleCancel_effect (ParseCancelPacket E buf) w)
      as (w' & Hh & Hc & _ & Ht & _).
    by exists w'.
  - left. by exists w.
Qed.

(** X10.  The handler of a connection never calls [logger.FatalF]:
    whatever the first frame is, the handler does not end the process and
    writes no fatal log line, neither before nor after the splice of a
    successful claim. *)
Theorem handle_never_exits E (conn : Conn) (w : World) :
  let o := handle E conn w in
  (∀ w', o ≠ Exit w') ∧
  (∃ evs, trace (world_of o) = trace w ++ evs ∧ filter is_fatal evs = []) ∧
  ∀ (t : Traffic) (w1 : World),
    (∀ w', resume o t w1 ≠ Exit w') ∧
    (splicing o ≠ None →
       filter is_fatal (trace (world_of (resume o t w1))) = filter is_fatal (trace w1)).
Proof.
  cbv zeta.
  assert (∀ n, filter is_fatal
                 (replicate n (EvLog Debug "Accept new user connection: %s")) = [])
    as Hrep.
  { induction n as [|n IH]; [done|]. simpl. by rewrite filter_cons. }
  assert (∃ evs, trace (world_of (handle E conn w)) = trace w ++ evs
                 ∧ filter is_fatal evs = []) as Hevs.
  { destruct (layer_Read E conn) as [[pt [buf|]] [err|]] eqn:Hr.
    1,3,4: exists [EvLog Warn "Error reading from connection: %v"];
      unfold handle; rewrite Hr; done.
    rewrite (handle_dispatch E conn pt buf w Hr). destruct pt.
    - destruct (handleForward_cases E w conn buf)
        as [(_ & ->)|[(_ & _ & ->)|(_ & l & _ & ->)]].
      + by exists [EvLog Error "Invalid forward to port: %d"].
      + by exists [EvListen (Sprintf_port (ParseRegisterPacket E buf));
                   EvLog Error "Error listening: %v, port: %d"].
      + exists ([EvListen (Sprintf_port (ParseRegisterPacket E buf));
                 EvLog Info "Listening on forwarding port %d"]
                ++ replicate (length (accepted E l))
                     (EvLog Debug "Accept new user connection: %s")
                ++ [EvCloseListener l]).
        unfold forwarded. cbn [world_of].
        split; [simpl; by rewrite <- !app_assoc|]. by rewrite !filter_app, Hrep.
    - destruct (ConnMap.Get (connMap (srv w)) (ParseExchangePacket E buf))
        as [uConn|] eqn:Hget.
      + destruct (handleMessage_found E conn buf uConn w Hget) as (k & -> & _).
        exists []. simpl. by rewrite app_nil_r.
      + rewrite (handleMessage_not_found E conn buf w Hget).
        exists []. simpl. by rewrite app_nil_r.
    - unfold handleCancel, bind.
      destruct (delForward_cases (Sprintf_port (ParseCancelPacket E buf)) w)
        as [[_ ->]|(l1 & f & l2 & _ & _ & _ & ->)].
      + by exists [EvLog Info "Cancel forward to port %d"].
      + exists [EvCloseListener (uListener f); EvLog Info "Cancel forward to port %d"].
        simpl. by rewrite <- app_assoc.
    - exists []. simpl. by rewrite app_nil_r. }
  destruct (handle_outcome E conn w)
    as [(w' & Ho & _)|(buf & uConn & k & _ & _ & Ho & Hk)]; rewrite Ho in *.
  - split; [done|]. split; [exact Hevs|]. intros t w1. simpl. split; [done|].
    intros H. by destruct H.
  - split; [done|]. split; [exact Hevs|]. intros t w1. simpl. rewrite Hk.
    split; [done|]. intros _. simpl. by rewrite filter_app, app_nil_r.
Qed.

(** X11.  Two connections are handed to the splice only for an Exchange
    frame whose id is in the store, and then they are the claiming
    connection and the connection stored under that id. *)
Theorem handle_splices_iff_claim_found E (conn c1 c2 : Conn) (w : World) :
  splicing (handle E conn w) = Some (c1, c2)
  ↔ c1 = conn ∧
    ∃ buf, layer_Read E conn = (ExchangeMsg, Some buf, None) ∧
           ConnMap.Get (connMap (srv w)) (ParseExchangePacket E buf) = Some c2.
Proof.
  split.
  - destruct (handle_outcome E conn w)
      as [(w' & -> & _)|(buf & uConn & k & Hr & Hget & -> & _)]; [done|].
    simpl. intros [= <- <-]. split; [done|]. by exists buf.
  - intros (-> & buf & Hr & Hget).
    rewrite (handle_dispatch E conn _ buf w Hr).
    by destruct (handleMessage_found E conn buf c2 w Hget) as (k & -> & _).
Qed.

(** X12.  A successful claim deletes its own id only: when the splice is
    over, every other id is bound as it was at that moment, the registry is
    as it was, and both connections have been closed. *)
Theorem claim_deletes_own_id_only E (w : World) (conn uConn : Conn) (buf : bytes) :
  let rid := ParseExchangePacket E buf in
  ConnMap.Get (connMap (srv w)) rid = Some uConn →
  ∀ (t : Traffic) (w' : World),
    ∃ w'', resume (handleMessage E conn buf w) t w' = Ok tt w'' ∧
      (∀ id, id ≠ rid →
         ConnMap.Get (connMap (srv w'')) id = ConnMap.Get (connMap (srv w')) id) ∧
      forwards (srv w'') = forwards (srv w') ∧
      trace w'' = trace w' ++ [EvCloseConn conn; EvCloseConn uConn] ∧
      conn_closed conn (trace w'') ∧ conn_closed uConn (trace w'').
Proof.
  intros rid Hget t w'.
  destruct (handleMessage_found E conn buf uConn w Hget) as (k & -> & Hk).
  exists (claimed rid conn uConn t w'). simpl. split; [apply Hk|].
  split.
  { intros id Hne. unfold ConnMap.Get. simpl. by apply lookup_delete_ne. }
  split; [done|]. split; [done|].
  unfold conn_closed. simpl. rewrite !elem_of_app.
  split; right; [left | right; left].
Qed.

Lemma claim_deletes_own_id_only_witness :
  ∃ w'', resume (handleMessage Demo.env 2%nat Demo.id_aaaaaaaa Demo.world_pending)
           {| bytesAtoB := 5; bytesBtoA := 7 |} Demo.world_pending = Ok tt w'' ∧
         trace w'' = [EvCloseConn 2%nat; EvCloseConn 10%nat].
Proof.
  destruct (claim_deletes_own_id_only Demo.env Demo.world_pending 2%nat 10%nat
              Demo.id_aaaaaaaa eq_refl {| bytesAtoB := 5; bytesBtoA := 7 |}
              Demo.world_pending) as (w'' & H1 & _ & _ & H4 & _).
  exists w''. split; [exact H1 | exact H4].
Defined.

(** X13.  No goroutine changes the configuration, and none changes the
    traffic records except a claim whose splice is over, which appends the
    one record of that splice. *)
Theorem run_task_keeps_config E (t : Task) (w : World) :
  let o := run_task E t w in
  cfg (srv (world_of o)) = cfg (srv w) ∧
  traffics (srv (world_of o)) = traffics (srv w) ∧
  ∀ (tr : Traffic) (w' : World),
    splicing o ≠ None →
    returned (resume o tr w') = true ∧
    cfg (srv (world_of (resume o tr w'))) = cfg (srv w') ∧
    traffics (srv (world_of (resume o tr w'))) = traffics (srv w') ++ [tr].
Proof.
  cbv zeta. destruct t as [|conn|userConn commuConn]; simpl.
  - destruct (decide (AdminPort (cfg (srv w)) = 0)) as [Hzero|Hport].
    + by rewrite (StartAdmin_disabled E w Hzero).
    + rewrite (StartAdmin_enabled E w Hport).
      pose proof (startAdmin_outcome E w) as H. cbv zeta in H. rewrite H.
      destruct (template_ParseFS E); [done|].
      by destruct (http_ListenAndServe E _).
  - destruct (handle_outcome E conn w)
      as [(w' & -> & Hc & Ht)|(buf & uConn & k & _ & _ & -> & Hk)].
    + by simpl.
    + simpl. do 2 (split; [done|]). intros tr w' _. by rewrite Hk.
  - unfold mint. by destruct (slice_to _ _).
Qed.

(** X14.  The handler of a connection never sends a frame, on that
    connection or any other: nothing answers a Register, an Exchange or a
    Cancel.  The only goroutines it starts are the minting goroutines of a
    Register, all for its own connection as control connection. *)
Theorem handle_sends_nothing E (conn : Conn) (w : World) :
  let o := handle E conn w in
  ∃ evs incoming,
    trace (world_of o) = trace w ++ evs ∧
    filter is_send evs = [] ∧
    spawned (world_of o) = spawned w ++ map (λ u, TMint u conn) incoming ∧
    ∀ t w', filter is_send (trace (world_of (resume o t w')))
            = filter is_send (trace (world_of o))
            ∨ filter is_send (trace (world_of (resume o t w')))
              = filter is_send (trace w').
Proof.
  cbv zeta.
  assert (∀ n, filter is_send
                 (replicate n (EvLog Debug "Accept new user connection: %s")) = [])
    as Hrep.
  { induction n as [|n IH]; [done|]. simpl. by rewrite filter_cons. }
  destruct (layer_Read E conn) as [[pt [buf|]] [err|]] eqn:Hr.
  1,3,4: exists [EvLog Warn "Error reading from connection: %v"], [];
    unfold handle; rewrite Hr; simpl; rewrite app_nil_r;
    do 3 (split; [done|]); intros; by left.
  rewrite (handle_dispatch E conn pt buf w Hr). destruct pt.
  - destruct (handleForward_cases E w conn buf)
      as [(_ & ->)|[(_ & _ & ->)|(_ & l & _ & ->)]].
    + exists [EvLog Error "Invalid forward to port: %d"], []. simpl.
      rewrite app_nil_r. do 3 (split; [done|]). intros; by left.
    + exists [EvListen (Sprintf_port (ParseRegisterPacket E buf));
              EvLog Error "Error listening: %v, port: %d"], []. simpl.
      rewrite app_nil_r. do 3 (split; [done|]). intros; by left.
    + exists ([EvListen (Sprintf_port (ParseRegisterPacket E buf));
               EvLog Info "Listening on forwarding port %d"]
              ++ replicate (length (accepted E l))
                   (EvLog Debug "Accept new user connection: %s")
              ++ [EvCloseListener l]), (accepted E l).
      unfold forwarded. cbn [world_of].
      split; [simpl; by rewrite <- !app_assoc|].
      split; [by rewrite !filter_app, Hrep|]. split; [done|]. intros; by left.
  - destruct (ConnMap.Get (connMap (srv w)) (ParseExchangePacket E buf))
      as [uConn|] eqn:Hget.
    + destruct (handleMessage_found E conn buf uConn w Hget) as (k & -> & Hk).
      exists [], []. simpl. rewrite !app_nil_r. do 3 (split; [done|]).
      intros t w'. right. rewrite Hk. simpl. by rewrite filter_app, app_nil_r.
    + rewrite (handleMessage_not_found E conn buf w Hget).
      exists [], []. simpl. rewrite !app_nil_r. do 3 (split; [done|]). intros; by left.
  - unfold handleCancel, bind.
    destruct (delForward_cases (Sprintf_port (ParseCancelPacket E buf)) w)
      as [[_ ->]|(l1 & f & l2 & _ & _ & _ & ->)].
    + exists [EvLog Info "Cancel forward to port %d"], []. simpl.
      rewrite app_nil_r. do 3 (split; [done|]). intros; by left.
    + exists [EvCloseListener (uListener f); EvLog Info "Cancel forward to port %d"], [].
      simpl. rewrite app_nil_r. split; [by rewrite <- app_assoc|].
      do 2 (split; [done|]). intros; by left.
  - exists [], []. simpl. rewrite !app_nil_r. do 3 (split; [done|]). intros; by left.
Qed.

(** ** Start-up *)

(** X15.  When the main port can be bound, [Run] starts the admin
    goroutine and then one handler goroutine for every connection
    accepted, in the order of arrival; it binds once, leaves the server's
    state alone, and closes the main listener last, when [Accept] has
    failed. *)
Theorem Run_starts_one_handler_per_connection E (w : World) (l : Listener) :
  let addr := Sprintf_port (Port (cfg (srv w))) in
  net_Listen E addr = inl l →
  ∃ w', Run E w = Ok tt w' ∧
    srv w' = srv w ∧
    spawned w' = spawned w ++ TStartAdmin :: map THandle (accepted E l) ∧
    filter is_listen (trace w') = filter is_listen (trace w) ++ [EvListen addr] ∧
    last (trace w') = Some (EvCloseListener l).
Proof.
  intros addr Hl. pose proof (Run_outcome E w) as H. cbv zeta in H.
  fold addr in H. rewrite Hl in H. eexists. split; [exact H|]. simpl.
  do 2 (split; [done|]). split.
  - by rewrite filter_app.
  - change [EvListen addr; EvLog Info "Server listen on port %d";
            EvLog Info "Error accepting: %v"; EvCloseListener l]
      with ([EvListen addr; EvLog Info "Server listen on port %d";
             EvLog Info "Error accepting: %v"] ++ [EvCloseListener l]).
    by rewrite app_assoc, last_snoc.
Qed.

Lemma Run_starts_one_handler_per_connection_witness :
  ∃ w', Run Demo.env Demo.world0 = Ok tt w' ∧
        spawned w' = [TStartAdmin] ∧
        last (trace w') = Some (EvCloseListener 1%nat).
Proof.
  destruct (Run_starts_one_handler_per_connection Demo.env Demo.world0 1%nat eq_refl)
    as (w' & H1 & _ & H3 & _ & H5).
  exists w'. split; [exact H1|]. split; [exact H3 | exact H5].
Defined.

(** X16.  The configuration the server runs with: the flags when no
    configuration file is named, and otherwise the record decoded from
    the file, the flags being ignored.  The server then starts from an
    empty registry and an empty store and binds the port of that
    configuration.  When the file cannot be read the process ends before
    any bind. *)
Theorem Command_Run_configuration E (cfgFile : string) (flagCfg : Config) (w : World) :
  let o := Command_Run E cfgFile flagCfg w in
  let chosen :=
    if decide (cfgFile = "") then Some flagCfg
    else match os_ReadFile E cfgFile with
         | inl data => Some (toml_Unmarshal E data {| Port := 0; AdminPort := 0 |}).1
         | inr _ => None
         end in
  match chosen with
  | Some c =>
      srv (world_of o) = newServer c ∧
      filter is_listen (trace (world_of o))
        = filter is_listen (trace w) ++ [EvListen (Sprintf_port (Port c))] ∧
      TStartAdmin ∈ spawned (world_of o)
  | None =>
      o = Exit (emit [EvLog Fatal "Error reading config file: %v"] w) ∧
      filter is_listen (trace (world_of o)) = filter is_listen (trace w)
  end.
Proof.
  cbv zeta.
  assert (∀ c, srv (world_of (Run E (set_srv (λ _, newServer c) w))) = newServer c ∧
               filter is_listen (trace (world_of (Run E (set_srv (λ _, newServer c) w))))
                 = filter is_listen (trace w) ++ [EvListen (Sprintf_port (Port c))] ∧
               TStartAdmin ∈ spawned (world_of (Run E (set_srv (λ _, newServer c) w))))
    as Hrun.
  { intros c. pose proof (Run_outcome E (set_srv (λ _, newServer c) w)) as H.
    cbv zeta in H. simpl in H.
    destruct (net_Listen E (Sprintf_port (Port c))); rewrite H; simpl;
      (split; [done|]); (split; [by rewrite filter_app|]);
      rewrite elem_of_app; right; left. }
  unfold Command_Run. destruct (decide (cfgFile = "")) as [->|Hne].
  - rewrite decide_False by (intros H; by apply H). apply Hrun.
  - rewrite decide_True by done. unfold bind, modify_srv.
    destruct (os_ReadFile E cfgFile) as [data|err] eqn:Hr.
    + rewrite (parseConfig_readable E cfgFile w data Hr). cbn [obind].
      exact (Hrun (toml_Unmarshal E data {| Port := 0; AdminPort := 0 |}).1).
    + rewrite (parseConfig_unreadable E cfgFile w err Hr). simpl.
      split; [done|]. by rewrite filter_app, app_nil_r.
Qed.
